(** * The standalone proxy: forwarding client of the refiner

    A shallow embedding of [standaloneproxy/proxy.go].  The Go code talks to
    the operating system (filesystem, sockets) and to libraries that live
    outside the repository (jsonparser, encoding/json, strconv, the
    relayer2-base types).  The operating system is an arbitrary instance of
    the class [System]; every call made to it is recorded in a log, so that
    statements such as "one reconnect attempt" are statements about that
    log.  Go's [(value, error)] results are pairs of options, a nil pointer
    or nil error being [None]. *)

From Stdlib Require Import ZArith NArith List Bool Lia.
From Stdlib Require Import Strings.String Strings.Ascii Strings.Byte.
Import ListNotations.

Local Open Scope string_scope.
Local Open Scope Z_scope.

(** ** Go errors *)

(** The [syscall.Errno] values the transport can report. *)
Inductive Errno : Type :=
| EPIPE | ECONNRESET | ECONNREFUSED | ENOENT | EACCES | ETIMEDOUT.

Definition Errno_eqb (a b : Errno) : bool :=
  match a, b with
  | EPIPE, EPIPE | ECONNRESET, ECONNRESET | ECONNREFUSED, ECONNREFUSED
  | ENOENT, ENOENT | EACCES, EACCES | ETIMEDOUT, ETIMEDOUT => true
  | _, _ => false
  end.

(** The sentinel failures of [strconv]. *)
Inductive NumErr : Type := ErrSyntax | ErrRange.

(** A Go [error] value.  [New] is [errors.New] (and [fmt.Errorf] without
    [%w]); [Wrapf] is [fmt.Errorf("<prefix>: %w", inner)]; [Syscall] is an
    [*net.OpError] or [*os.PathError] around an errno; [NumError] is a
    [*strconv.NumError]; [Foreign] is an error made by a library outside
    the repository. *)
Inductive error : Type :=
| New (msg : string)
| Wrapf (prefix : string) (inner : error)
| Syscall (op : string) (e : Errno)
| EOF
| ErrUnexpectedEOF
| ErrDeadlineExceeded
| NumError (fn num : string) (k : NumErr)
| Foreign (pkg msg : string).

(** [errors.Is(err, target)] for an errno target: follows the [Unwrap]
    chain down to the errno. *)
Fixpoint errors_Is (err : error) (target : Errno) : bool :=
  match err with
  | Wrapf _ inner => errors_Is inner target
  | Syscall _ e => Errno_eqb e target
  | _ => false
  end.

(** [os.IsNotExist] looks through the [*os.PathError] of a failed
    [os.Stat]; it does not look through [fmt.Errorf] wrappers. *)
Definition os_IsNotExist (err : option error) : bool :=
  match err with
  | Some (Syscall _ ENOENT) => true
  | _ => false
  end.

(** The error values of the specification's taxonomy, as the code spells
    them. *)
Definition InvalidParams : error := New "invalid params".
Definition EndpointUnavailable : error :=
  New "socket connection to refiner is not available. Trying to reconnect. Please try again".
Definition UnexpectedResponseShape : error := New "unexpected response".

(** ** Bytes and the length prefix *)

Definition bytes : Type := list byte.

Definition byte_of_Z (z : Z) : byte :=
  match Byte.of_N (Z.to_N (z mod 256)) with
  | Some b => b
  | None => x00
  end.

Definition Z_of_byte (b : byte) : Z := Z.of_N (Byte.to_N b).

(** [uint32(len(req))]: the conversion wraps modulo 2^32. *)
Definition uint32 (z : Z) : Z := z mod 2 ^ 32.

Definition len {A : Type} (l : list A) : Z := Z.of_nat (List.length l).

(** [binary.LittleEndian.PutUint32]. *)
Definition PutUint32 (v : Z) : bytes :=
  [ byte_of_Z v;
    byte_of_Z (Z.shiftr v 8);
    byte_of_Z (Z.shiftr v 16);
    byte_of_Z (Z.shiftr v 24) ].

(** [binary.LittleEndian.Uint32] on the four bytes read. *)
Definition Uint32 (b : bytes) : Z :=
  match b with
  | [b0; b1; b2; b3] =>
      Z.lor (Z_of_byte b0)
        (Z.lor (Z.shiftl (Z_of_byte b1) 8)
           (Z.lor (Z.shiftl (Z_of_byte b2) 16) (Z.shiftl (Z_of_byte b3) 24)))
  | _ => 0
  end.

(** ** The operating system *)

(** A [net.Conn] handle. *)
Definition Conn : Type := nat.

(** What the client asks of its environment.  [W] is the state of the
    world (filesystem, peer process, clock); an instance answers each call
    and moves the world on.  [conn_Write] stands for [net.Conn.Write]
    (the code drops the byte count), [io_ReadFull c n] for [io.ReadFull]
    on a buffer of [n] bytes: it gives the bytes that arrived and the
    error, if any. *)
Class System (W : Type) : Type := {
  os_Stat : string -> W -> option error * W;
  net_Dial : string -> string -> W -> (Conn + error) * W;
  conn_SetDeadline : Conn -> Z -> W -> option error * W;
  conn_Write : Conn -> bytes -> W -> option error * W;
  io_ReadFull : Conn -> Z -> W -> (bytes * option error) * W;
  conn_Close : Conn -> W -> option error * W
}.

(** One entry of the log per call made to the environment, and one per
    operation on the mutex. *)
Inductive Event : Type :=
| EvStat (path : string)
| EvDial (network address : string)
| EvLock
| EvUnlock
| EvSetDeadline (c : Conn) (timeout : Z)
| EvWrite (c : Conn) (p : bytes)
| EvReadFull (c : Conn) (n : Z)
| EvClose (c : Conn).

Definition is_stat (e : Event) : bool :=
  match e with EvStat _ => true | _ => false end.
Definition is_dial (e : Event) : bool :=
  match e with EvDial _ _ => true | _ => false end.
Definition is_write (e : Event) : bool :=
  match e with EvWrite _ _ => true | _ => false end.

Definition count (p : Event -> bool) (l : list Event) : nat :=
  List.length (filter p l).

(** [reconnect] is the only caller of [os.Stat] and of [net.Dial], and it
    calls [os.Stat] first: the number of reconnect attempts is the number
    of [EvStat] entries. *)
Definition reconnects (l : list Event) : nat := count is_stat l.
Definition dials (l : list Event) : nat := count is_dial l.
Definition writes (l : list Event) : nat := count is_write l.

(** ** The client and its monad *)

(** [type rpcClient struct]; the mutex shows in the log only. *)
Record rpcClient : Type := mkClient {
  conn : option Conn;
  network : string;
  address : string;
  timeout : Z
}.

(** [func newRPCClient(network, address, timeout)]: no connection yet. *)
Definition newRPCClient (network address : string) (timeout : Z) : rpcClient :=
  mkClient None network address timeout.

Definition set_conn (rc : rpcClient) (c : option Conn) : rpcClient :=
  mkClient c (network rc) (address rc) (timeout rc).

(** A run-time panic of the Go runtime. *)
Inductive PanicKind : Type :=
| IndexOutOfRange (index length : nat)
| NilDereference.

Inductive Outcome (A : Type) : Type :=
| Returns (a : A)
| Panics (p : PanicKind).
Arguments Returns {A} a.
Arguments Panics {A} p.

(** The state a call runs in: the world, the client struct behind the
    receiver pointer, and the log, oldest entry first. *)
Record State (W : Type) : Type := mkState {
  world : W;
  rc : rpcClient;
  log : list Event
}.
Arguments mkState {W} world rc log.
Arguments world {W} s.
Arguments rc {W} s.
Arguments log {W} s.

(** Computations that read and write the state and may panic. *)
Definition M (W A : Type) : Type := State W -> Outcome A * State W.

Definition ret {W A : Type} (a : A) : M W A := fun s => (Returns a, s).

Definition bind {W A B : Type} (m : M W A) (k : A -> M W B) : M W B :=
  fun s =>
    match m s with
    | (Returns a, s') => k a s'
    | (Panics p, s') => (Panics p, s')
    end.

Definition panic {W A : Type} (p : PanicKind) : M W A :=
  fun s => (Panics p, s).

Declare Scope go_scope.
Delimit Scope go_scope with go.
Notation "x <- m ;; k" := (bind m (fun x => k))
  (at level 61, m at next level, right associativity) : go_scope.
Notation "m ;; k" := (bind m (fun _ => k))
  (at level 61, right associativity) : go_scope.
Local Open Scope go_scope.

Section Client.

Context {W : Type} {Sys : System W}.

(** A call to the environment: log it, let the world answer. *)
Definition call {A : Type} (e : Event) (f : W -> A * W) : M W A :=
  fun s =>
    let (a, w') := f (world s) in
    (Returns a, mkState w' (rc s) (log s ++ [e])%list).

Definition emit (e : Event) : M W unit :=
  fun s => (Returns tt, mkState (world s) (rc s) (log s ++ [e])%list).

Definition get_rc : M W rpcClient := fun s => (Returns (rc s), s).

Definition put_conn (c : option Conn) : M W unit :=
  fun s => (Returns tt, mkState (world s) (set_conn (rc s) c) (log s)).

(** [rc.conn.<method>] on a nil interface value panics. *)
Definition the_conn : M W Conn :=
  r <- get_rc ;;
  match conn r with
  | Some c => ret c
  | None => panic NilDereference
  end.

(** [defer rc.lock.Unlock()] after [rc.lock.Lock()]: the unlock runs on
    every way out of the body, a panic included. *)
Definition with_lock {A : Type} (body : M W A) : M W A :=
  fun s =>
    match emit EvLock s with
    | (_, s1) =>
        let (o, s2) := body s1 in
        (o, mkState (world s2) (rc s2) (log s2 ++ [EvUnlock])%list)
    end.

(** [func (rc *rpcClient) reconnect() error] *)
Definition reconnect : M W (option error) :=
  r <- get_rc ;;
  err <- call (EvStat (address r)) (os_Stat (address r)) ;;
  if os_IsNotExist err then ret (Some EndpointUnavailable)
  else
    d <- call (EvDial (network r) (address r)) (net_Dial (network r) (address r)) ;;
    match d with
    | inr _ => ret (Some EndpointUnavailable)
    | inl c => put_conn (Some c) ;; ret None
    end.

(** [make([]byte, l)] filled by [io.ReadFull]: the bytes that arrived,
    the rest of the buffer zero. *)
Definition fill (l : Z) (got : bytes) : bytes :=
  firstn (Z.to_nat l) (got ++ repeat x00 (Z.to_nat l))%list.

(** The part of [request] that runs with the mutex held. *)
Definition exchange (req : bytes) : M W (option bytes * option error) :=
  r <- get_rc ;;
  c <- the_conn ;;
  err <- call (EvSetDeadline c (timeout r)) (conn_SetDeadline c (timeout r)) ;;
  match err with
  | Some e => ret (None, Some e)
  | None =>
      let hdr := PutUint32 (uint32 (len req)) in
      c <- the_conn ;;
      err <- call (EvWrite c hdr) (conn_Write c hdr) ;;
      match err with
      | Some e =>
          if errors_Is e EPIPE then
            rerr <- reconnect ;;
            match rerr with
            | Some e' => ret (None, Some e')
            | None => ret (None, Some e)
            end
          else ret (None, Some e)
      | None =>
          c <- the_conn ;;
          err <- call (EvWrite c req) (conn_Write c req) ;;
          match err with
          | Some e => ret (None, Some e)
          | None =>
              c <- the_conn ;;
              rd <- call (EvReadFull c 4) (io_ReadFull c 4) ;;
              match rd with
              | (_, Some e) => ret (None, Some e)
              | (lb, None) =>
                  let l := Uint32 lb in
                  c <- the_conn ;;
                  rd <- call (EvReadFull c l) (io_ReadFull c l) ;;
                  ret (Some (fill l (fst rd)), snd rd)
              end
          end
      end
  end.

(** [func (rc *rpcClient) request(req []byte) ([]byte, error)] *)
Definition request (req : bytes) : M W (option bytes * option error) :=
  r <- get_rc ;;
  rerr <- match conn r with
          | None => reconnect
          | Some _ => ret None
          end ;;
  match rerr with
  | Some e => ret (None, Some e)
  | None => with_lock (exchange req)
  end.

(** [func (rc *rpcClient) Close() error] *)
Definition Close : M W (option error) :=
  r <- get_rc ;;
  match conn r with
  | None => ret None
  | Some c => call (EvClose c) (conn_Close c)
  end.

End Client.

(** ** Text *)

Definition string_of_bytes (b : bytes) : string := string_of_list_byte b.
Definition bytes_of_string (s : string) : bytes := list_byte_of_string s.

(** The double quote character. *)
Definition dq : string := String "034"%char EmptyString.

(** [s] between double quotes. *)
Definition quoted (s : string) : string := dq ++ s ++ dq.

(** ** [strconv.ParseInt(s, 10, 64)] and [fmt.Sprintf("0x%x", val)] *)

Definition maxUint64 : Z := 2 ^ 64 - 1.

(** The value of a decimal digit. *)
Definition digit_of_ascii (c : ascii) : option Z :=
  let n := Z.of_nat (nat_of_ascii c) in
  if (48 <=? n) && (n <=? 57) then Some (n - 48) else None.

(** The loop of [strconv.ParseUint] in base 10 with [bitSize] 64; [n] is
    the [uint64] accumulator.  A letter is a digit beyond the base, hence a
    syntax error like any other byte that is not a decimal digit. *)
Fixpoint ParseUint_loop (s : string) (n : Z) : Z + NumErr :=
  match s with
  | EmptyString => inl n
  | String c rest =>
      match digit_of_ascii c with
      | None => inr ErrSyntax
      | Some d =>
          if n >=? maxUint64 / 10 + 1 then inr ErrRange
          else
            let n10 := n * 10 in
            let n1 := (n10 + d) mod 2 ^ 64 in
            if (n1 <? n10) || (n1 >? maxUint64) then inr ErrRange
            else ParseUint_loop rest n1
      end
  end.

Definition ParseUint (s : string) : Z + NumErr :=
  match s with
  | EmptyString => inr ErrSyntax
  | _ => ParseUint_loop s 0
  end.

(** [strconv.ParseInt(s, 10, 64)]: a sign, then [ParseUint]; a range
    error of [ParseUint] leaves the maximum in [un] and is reported by the
    cutoff tests. *)
Definition ParseInt (s : string) : Z + error :=
  match s with
  | EmptyString => inr (NumError "ParseInt" s ErrSyntax)
  | String c rest =>
      let neg := Ascii.eqb c "-" in
      let body := if Ascii.eqb c "+" || neg then rest else s in
      match ParseUint body with
      | inr ErrSyntax => inr (NumError "ParseInt" s ErrSyntax)
      | r =>
          let un := match r with inl u => u | inr _ => maxUint64 end in
          let cutoff := 2 ^ 63 in
          if negb neg && (un >=? cutoff) then inr (NumError "ParseInt" s ErrRange)
          else if neg && (un >? cutoff) then inr (NumError "ParseInt" s ErrRange)
          else inl (if neg then - un else un)
      end
  end.

(** The digit table of [fmt]: [0123456789abcdef]. *)
Definition ldigit (d : Z) : ascii :=
  if d <? 10 then ascii_of_nat (Z.to_nat (48 + d))
  else ascii_of_nat (Z.to_nat (87 + d)).

(** The base-16 loop of [fmt.fmtInteger], which fills its buffer from the
    right: [for u >= 16 { buf[i] = digits[u&0xF]; u >>= 4 }] and then the
    leading digit.  A [uint64] has at most sixteen digits. *)
Fixpoint fmt_hex (fuel : nat) (u : Z) (buf : string) : string :=
  match fuel with
  | O => String (ldigit (Z.land u 15)) buf
  | S fuel' =>
      if u >=? 16 then fmt_hex fuel' (Z.shiftr u 4) (String (ldigit (Z.land u 15)) buf)
      else String (ldigit u) buf
  end.

(** [fmt.Sprintf("0x%x", val)] for an [int64]: the sign goes in front of
    the magnitude, after the literal prefix. *)
Definition Sprintf_0x_x (val : Z) : string :=
  "0x" ++ (if val <? 0 then "-" else "") ++ fmt_hex 15 (Z.abs val) "".

(** ** Libraries and types from outside the repository *)

Module jsonparser.
(** [jsonparser.ValueType] *)
Inductive ValueType : Type :=
| NotExist | String | Number | Object | Array | Boolean | Null | Unknown.

Definition ValueType_eqb (a b : ValueType) : bool :=
  match a, b with
  | NotExist, NotExist | String, String | Number, Number | Object, Object
  | Array, Array | Boolean, Boolean | Null, Null | Unknown, Unknown => true
  | _, _ => false
  end.

(** [jsonparser.KeyPathNotFoundError] *)
Definition KeyPathNotFoundError : error :=
  Foreign "jsonparser" "Key path not found".

(** [errors.Is(err, jsonparser.KeyPathNotFoundError)]: the sentinel is
    compared by identity, through [fmt.Errorf] wrappers. *)
Fixpoint is_KeyPathNotFound (err : error) : bool :=
  match err with
  | Wrapf _ inner => is_KeyPathNotFound inner
  | Foreign pkg msg =>
      (pkg =? "jsonparser")%string && (msg =? "Key path not found")%string
  | _ => false
  end.
End jsonparser.

(** The types of relayer2-base and the functions of jsonparser and
    encoding/json that [proxy.go] calls.  None of them is defined in the
    repository; the client is verified against every instance.
    [json_Unmarshal value trace] gives the frame after decoding into
    [trace] and the error; [jsonparser_ArrayEach data] gives the elements
    handed to the callback, in order, and the error of the iteration
    itself. *)
Class Library : Type := {
  H256 : Type;
  TransactionForCall : Type;
  CallFrame : Type;
  Uint256 : Type;
  EarliestBlockNumber : Z;
  LatestBlockNumber : Z;
  PendingBlockNumber : Z;
  jsonparser_Get : bytes -> list string -> bytes * jsonparser.ValueType * option error;
  jsonparser_ArrayEach : bytes -> list (bytes * jsonparser.ValueType) * option error;
  new_CallFrame : CallFrame;
  json_Unmarshal : bytes -> CallFrame -> CallFrame * option error;
  new_Uint256 : Uint256;
  Uint256_UnmarshalJSON : bytes -> Uint256 -> Uint256 * option error;
  json_Marshal_H256 : H256 -> bytes + error;
  json_Marshal_TransactionForCall : TransactionForCall -> bytes + error;
  json_Marshal_BN64 : Z -> bytes + error
}.

Section Proxy.

Context {W : Type} {Sys : System W} {Lib : Library}.

(** [common.BlockNumberOrHash]: two pointers. *)
Record BlockNumberOrHash : Type := mkBlockNumberOrHash {
  BlockNumber : option Z;
  BlockHash : option H256
}.

(** A value of type [any] as [Pre] tells them apart: by dynamic type.
    [AnyBlockRef None] is a nil pointer of type pointer to
    [common.BlockNumberOrHash]; [AnyNil] is the nil interface. *)
Inductive any : Type :=
| AnyH256 (h : H256)
| AnyTransactionForCall (tx : TransactionForCall)
| AnyBlockRef (p : option BlockNumberOrHash)
| AnyString (s : string)
| AnyNil.

(** A parameter handed to [buildRequest]. *)
Inductive param : Type :=
| PH256 (h : H256)
| PTransactionForCall (tx : TransactionForCall)
| PBN64 (n : Z)
| PString (s : string).

(** [json.Marshal(param)]; the strings passed are block tags, which need
    no escaping. *)
Definition json_Marshal (p : param) : bytes + error :=
  match p with
  | PH256 h => json_Marshal_H256 h
  | PTransactionForCall tx => json_Marshal_TransactionForCall tx
  | PBN64 n => json_Marshal_BN64 n
  | PString s => inl (bytes_of_string (quoted s))
  end.

(** The loop of [buildRequest] over the parameters; [b] is the buffer. *)
Fixpoint buildRequest_loop (params : list param) (first : bool) (b : bytes)
  : bytes + error :=
  match params with
  | [] => inl b
  | p :: rest =>
      match json_Marshal p with
      | inr err => inr err
      | inl pb =>
          let b := if first then b else (b ++ bytes_of_string ",")%list in
          buildRequest_loop rest false (b ++ pb)%list
      end
  end.

(** [func buildRequest(method string, params ...any) ([]byte, error)] *)
Definition buildRequest (method : string) (params : list param) : bytes + error :=
  let b := bytes_of_string
             ("{" ++ quoted "id" ++ ":1," ++ quoted "jsonrpc" ++ ":" ++ quoted "2.0"
                  ++ "," ++ quoted "method" ++ ":" ++ dq ++ method ++ dq
                  ++ "," ++ quoted "params" ++ ":[") in
  match buildRequest_loop params true b with
  | inr err => inr err
  | inl b => inl (b ++ bytes_of_string "]}")%list
  end.

(** The callback of [jsonparser.ArrayEach] in [TraceTransaction], run
    over the elements: an element that does not decode is left out.  The
    callback stores the decoding error in the [err] of the enclosing
    function, which the [err] declared by [_, err := jsonparser.ArrayEach]
    hides from the statements that follow; the stored error is not read
    again. *)
Fixpoint collect_traces (elems : list (bytes * jsonparser.ValueType))
  : list CallFrame :=
  match elems with
  | [] => []
  | (value, _) :: rest =>
      match json_Unmarshal value new_CallFrame with
      | (_, Some _) => collect_traces rest
      | (trace, None) => trace :: collect_traces rest
      end
  end.

(** [TraceTransaction] from [jsonparser.Get(res, "result")] on. *)
Definition interpretTrace (res : bytes) : option CallFrame * option error :=
  let '(result, resultType, err) := jsonparser_Get res ["result"] in
  let stop := match err with
              | Some e => if jsonparser.is_KeyPathNotFound e then None else Some e
              | None => None
              end in
  match stop with
  | Some e => (None, Some e)
  | None =>
      match resultType with
      | jsonparser.NotExist =>
          let '(rpcErr, rpcErrType, err) := jsonparser_Get res ["error"; "message"] in
          match err, rpcErrType with
          | None, jsonparser.String => (None, Some (New (string_of_bytes rpcErr)))
          | _, _ => (None, Some (New "internal rpc error"))
          end
      | jsonparser.Object =>
          let (trace, err) := json_Unmarshal result new_CallFrame in
          (Some trace, err)
      | jsonparser.Array =>
          let (elems, err) := jsonparser_ArrayEach result in
          match collect_traces elems with
          | [trace] => (Some trace, err)
          | _ => (None, Some UnexpectedResponseShape)
          end
      | _ => (None, Some (New "failed to parse unexpected response"))
      end
  end.

(** [func (rc *rpcClient) TraceTransaction(hash common.H256)] *)
Definition TraceTransaction (hash : H256) : M W (option CallFrame * option error) :=
  match buildRequest "debug_traceTransaction" [PH256 hash] with
  | inr err => ret (None, Some err)
  | inl req =>
      r <- request req ;;
      match r with
      | (_, Some err) => ret (None, Some err)
      | (res, None) => ret (interpretTrace (match res with Some b => b | None => [] end))
      end
  end.

(** [func handleEstimateGasError(res []byte)] *)
Definition handleEstimateGasError (res : bytes) : option Uint256 * option error :=
  let '(rpcErrData, _, rpcErrDataParseErr) := jsonparser_Get res ["error"; "data"] in
  match rpcErrDataParseErr, rpcErrData with
  | None, _ :: _ =>
      (None, Some (New ("engine error: " ++ string_of_bytes rpcErrData)))
  | _, _ =>
      let '(rpcErrMsg, _, rpcErrMsgParseErr) := jsonparser_Get res ["error"; "message"] in
      match rpcErrMsgParseErr, rpcErrMsg with
      | None, _ :: _ =>
          (None, Some (New ("engine error: " ++ string_of_bytes rpcErrMsg)))
      | _, _ => (None, Some (New "engine error: unknown error occurred"))
      end
  end.

(** [func parseEstimateGasResponse(res []byte)] *)
Definition parseEstimateGasResponse (res : bytes) : option Uint256 * option error :=
  let '(result, resultType, err) := jsonparser_Get res ["result"] in
  match err, resultType with
  | None, jsonparser.Number =>
      match ParseInt (string_of_bytes result) with
      | inr e => (None, Some (Wrapf "failed to parse result as integer" e))
      | inl val =>
          let hexStr := Sprintf_0x_x val in
          match Uint256_UnmarshalJSON (bytes_of_string hexStr) new_Uint256 with
          | (_, Some e) => (None, Some (Wrapf "failed to unmarshal result" e))
          | (resp, None) => (Some resp, None)
          end
      end
  | _, _ => handleEstimateGasError res
  end.

(** [func (rc *rpcClient) EstimateGas(tx, number)], [number] a pointer
    to [common.BN64]; the
    switch dereferences [number] before anything else is done. *)
Definition EstimateGas (tx : TransactionForCall) (number : option Z)
  : M W (option Uint256 * option error) :=
  match number with
  | None => panic NilDereference
  | Some n =>
      let blockParam :=
        if n =? EarliestBlockNumber then PString "earliest"
        else if n =? LatestBlockNumber then PString "latest"
        else if n =? PendingBlockNumber then PString "pending"
        else PBN64 n in
      match buildRequest "eth_estimateGas" [PTransactionForCall tx; blockParam] with
      | inr err => ret (None, Some (Wrapf "failed to build request" err))
      | inl req =>
          r <- request req ;;
          match r with
          | (_, Some err) => ret (None, Some (Wrapf "failed to send request" err))
          | (res, None) =>
              ret (parseEstimateGasResponse (match res with Some b => b | None => [] end))
          end
      end
  end.

(** What [Pre] stores through its [response] pointer. *)
Inductive Response : Type :=
| TraceResponse (res : option CallFrame)
| GasResponse (res : option Uint256).

(** [args[i]]: an index past the end panics. *)
Definition index (args : list any) (i : nat) : M W any :=
  match nth_error args i with
  | Some a => ret a
  | None => panic (IndexOutOfRange i (List.length args))
  end.

(** [func (l *StandaloneProxy) Pre(ctx, name, _, response, args...)]:
    the flag, the error and the content of the response slot afterwards.
    The context is returned as it came. *)
Definition Pre (name : string) (response : option Response) (args : list any)
  : M W (bool * option error * option Response) :=
  if (name =? "debug_traceTransaction")%string then
    if negb (List.length args =? 1)%nat then ret (false, Some InvalidParams, response)
    else
      a0 <- index args 0 ;;
      match a0 with
      | AnyH256 hash =>
          r <- TraceTransaction hash ;;
          match r with
          | (_, Some err) => ret (true, Some err, response)
          | (res, None) => ret (true, None, Some (TraceResponse res))
          end
      | _ => ret (false, Some InvalidParams, response)
      end
  else if (name =? "eth_estimateGas")%string then
    a0 <- index args 0 ;;
    match a0 with
    | AnyTransactionForCall tx =>
        a1 <- index args 1 ;;
        match a1 with
        | AnyBlockRef p =>
            let blockNumberOrHash :=
              match p with
              | None => mkBlockNumberOrHash (Some LatestBlockNumber) None
              | Some b => b
              end in
            r <- EstimateGas tx (BlockNumber blockNumberOrHash) ;;
            match r with
            | (_, Some err) => ret (true, Some err, response)
            | (res, None) => ret (true, None, Some (GasResponse res))
            end
        | _ => ret (true, Some InvalidParams, response)
        end
    | _ => ret (true, Some InvalidParams, response)
    end
  else ret (false, None, response).

End Proxy.

(** ** A scripted environment

    An instance of [System] whose answers are read off a script, one list
    per kind of call; a list that has run out answers with success (an
    end of file for reads).  It serves to run the client on concrete
    scenarios. *)
Module Scripted.

Record World : Type := mkWorld {
  stat_answers : list (option error);
  dial_answers : list (Conn + error);
  deadline_answers : list (option error);
  write_answers : list (option error);
  read_answers : list (bytes * option error)
}.

Definition pop {A : Type} (default : A) (l : list A) : A * list A :=
  match l with
  | [] => (default, [])
  | a :: rest => (a, rest)
  end.

Definition stat (_ : string) (w : World) : option error * World :=
  let (a, rest) := pop None (stat_answers w) in
  (a, mkWorld rest (dial_answers w) (deadline_answers w) (write_answers w)
        (read_answers w)).

Definition dial (_ _ : string) (w : World) : (Conn + error) * World :=
  let (a, rest) := pop (inl 0%nat) (dial_answers w) in
  (a, mkWorld (stat_answers w) rest (deadline_answers w) (write_answers w)
        (read_answers w)).

Definition set_deadline (_ : Conn) (_ : Z) (w : World) : option error * World :=
  let (a, rest) := pop None (deadline_answers w) in
  (a, mkWorld (stat_answers w) (dial_answers w) rest (write_answers w)
        (read_answers w)).

Definition write (_ : Conn) (_ : bytes) (w : World) : option error * World :=
  let (a, rest) := pop None (write_answers w) in
  (a, mkWorld (stat_answers w) (dial_answers w) (deadline_answers w) rest
        (read_answers w)).

Definition read_full (_ : Conn) (_ : Z) (w : World)
  : (bytes * option error) * World :=
  let (a, rest) := pop ([], Some EOF) (read_answers w) in
  (a, mkWorld (stat_answers w) (dial_answers w) (deadline_answers w)
        (write_answers w) rest).

Definition close (_ : Conn) (w : World) : option error * World := (None, w).

#[global] Instance system : System World := {
  os_Stat := stat;
  net_Dial := dial;
  conn_SetDeadline := set_deadline;
  conn_Write := write;
  io_ReadFull := read_full;
  conn_Close := close
}.

(** A world in which every call succeeds. *)
Definition calm : World := mkWorld [] [] [] [] [].

(** A client of the default configuration, connected or not. *)
Definition client (c : option Conn) : rpcClient :=
  mkClient c "unix" "/tmp/refiner.sock" 5000000000.

Definition start (c : option Conn) (w : World) : State World :=
  mkState w (client c) [].

Definition broken_pipe : error := Syscall "write" EPIPE.
Definition no_such_file : error := Syscall "stat" ENOENT.

(** A world whose peer answers the next request with the frame of
    [res]. *)
Definition answering (res : bytes) : World :=
  mkWorld [] [] [] [] [(PutUint32 (uint32 (len res)), None); (res, None)].

End Scripted.

(** ** A sample library

    An instance of [Library] to run the client on concrete responses.
    jsonparser and encoding/json are read here on well-formed documents,
    by recursive descent; the slices handed out are the ones jsonparser
    hands out (a string without its quotes, escapes untouched; any other
    value as written).  A document that is not well formed is answered
    with an error. *)
Module Sample.

(** A value of a document: its type, the slice [jsonparser.Get] gives
    for it, the elements if it is an array, the members if it is an
    object. *)
#[local] Unset Elimination Schemes.
Inductive node : Type :=
| Node (ty : jsonparser.ValueType) (raw : string)
       (items : list node) (members : list (string * node)).
#[local] Set Elimination Schemes.

Definition node_ty (n : node) : jsonparser.ValueType :=
  match n with Node ty _ _ _ => ty end.
Definition node_raw (n : node) : string :=
  match n with Node _ raw _ _ => raw end.

Definition is_space (c : ascii) : bool :=
  (c =? " ")%char || (c =? "009")%char || (c =? "010")%char || (c =? "013")%char.

(** The bytes that end a number, a boolean or null ([tokenEnd]). *)
Definition is_delim (c : ascii) : bool :=
  is_space c || (c =? ",")%char || (c =? "}")%char || (c =? "]")%char.

Fixpoint skip_space (s : string) : string :=
  match s with
  | String c r => if is_space c then skip_space r else s
  | EmptyString => s
  end.

(** After an opening quote: the content up to the closing quote, and
    what follows it. *)
Fixpoint scan_string (s : string) : option (string * string) :=
  match s with
  | EmptyString => None
  | String c r =>
      if (c =? "034")%char then Some (EmptyString, r)
      else if (c =? "\")%char then
        match r with
        | EmptyString => None
        | String c2 r2 =>
            match scan_string r2 with
            | Some (body, rest) => Some (String c (String c2 body), rest)
            | None => None
            end
        end
      else
        match scan_string r with
        | Some (body, rest) => Some (String c body, rest)
        | None => None
        end
  end.

Fixpoint scan_token (s : string) : string * string :=
  match s with
  | EmptyString => (EmptyString, EmptyString)
  | String c r =>
      if is_delim c then (EmptyString, s)
      else let (t, rest) := scan_token r in (String c t, rest)
  end.

(** The type of a token by its first byte ([getType]). *)
Definition token_type (t : string) : option jsonparser.ValueType :=
  match t with
  | EmptyString => None
  | String c _ =>
      if (c =? "t")%char || (c =? "f")%char then
        if (t =? "true")%string || (t =? "false")%string
        then Some jsonparser.Boolean else None
      else if (c =? "n")%char || (c =? "u")%char then
        if (t =? "null")%string then Some jsonparser.Null else None
      else if (c =? "-")%char then Some jsonparser.Number
      else match digit_of_ascii c with
           | Some _ => Some jsonparser.Number
           | None => None
           end
  end.

(** The part of [s] that was read when [rest] is what remains. *)
Definition consumed (s rest : string) : string :=
  substring 0 (String.length s - String.length rest) s.

(** The elements of an array after its opening bracket, and the
    members of an object after its opening brace; [scan] reads one
    value, [s0] is the text from the bracket on, [n] bounds the number
    of elements. *)
Fixpoint elements (scan : string -> option (node * string)) (s0 : string)
    (n : nat) (s : string) (acc : list node) : option (node * string) :=
  match n with
  | O => None
  | S n' =>
      match scan s with
      | None => None
      | Some (v, rest) =>
          match skip_space rest with
          | String "," rest' => elements scan s0 n' rest' (acc ++ [v])%list
          | String "]" rest' =>
              Some (Node jsonparser.Array (consumed s0 rest') (acc ++ [v])%list [],
                    rest')
          | _ => None
          end
      end
  end.

Fixpoint fields (scan : string -> option (node * string)) (s0 : string)
    (n : nat) (s : string) (acc : list (string * node))
  : option (node * string) :=
  match n with
  | O => None
  | S n' =>
      match skip_space s with
      | String "034" s1 =>
          match scan_string s1 with
          | None => None
          | Some (key, s2) =>
              match skip_space s2 with
              | String ":" s3 =>
                  match scan s3 with
                  | None => None
                  | Some (v, rest) =>
                      match skip_space rest with
                      | String "," rest' =>
                          fields scan s0 n' rest' (acc ++ [(key, v)])%list
                      | String "}" rest' =>
                          Some (Node jsonparser.Object (consumed s0 rest') []
                                  (acc ++ [(key, v)])%list, rest')
                      | _ => None
                      end
                  end
              | _ => None
              end
          end
      | _ => None
      end
  end.

(** One value, the values inside it being read by [scan]. *)
Definition scan_one (scan : string -> option (node * string)) (n : nat)
    (s : string) : option (node * string) :=
  let s0 := skip_space s in
  match s0 with
  | EmptyString => None
  | String c r =>
      if (c =? "034")%char then
        match scan_string r with
        | Some (body, rest) => Some (Node jsonparser.String body [] [], rest)
        | None => None
        end
      else if (c =? "[")%char then
        match skip_space r with
        | String "]" rest => Some (Node jsonparser.Array (consumed s0 rest) [] [], rest)
        | _ => elements scan s0 n r []
        end
      else if (c =? "{")%char then
        match skip_space r with
        | String "}" rest => Some (Node jsonparser.Object (consumed s0 rest) [] [], rest)
        | _ => fields scan s0 n r []
        end
      else
        let (t, rest) := scan_token s0 in
        match token_type t with
        | Some ty => Some (Node ty t [] [], rest)
        | None => None
        end
  end.

(** [fuel] bounds the depth of nesting and the number of elements. *)
Fixpoint scan_value (fuel : nat) (s : string) : option (node * string) :=
  match fuel with
  | O => None
  | S fuel' => scan_one (scan_value fuel') fuel' s
  end.

(** The whole of [s] as one document. *)
Definition document (s : string) : option node :=
  match scan_value (S (String.length s)) s with
  | Some (n, rest) =>
      match skip_space rest with
      | EmptyString => Some n
      | _ => None
      end
  | None => None
  end.

Fixpoint member (key : string) (ms : list (string * node)) : option node :=
  match ms with
  | [] => None
  | (k, v) :: rest => if (k =? key)%string then Some v else member key rest
  end.

Fixpoint at_path (n : node) (keys : list string) : option node :=
  match keys with
  | [] => Some n
  | k :: ks =>
      match n with
      | Node jsonparser.Object _ _ ms =>
          match member k ms with
          | Some v => at_path v ks
          | None => None
          end
      | _ => None
      end
  end.

Definition malformed : error := Foreign "jsonparser" "Malformed JSON error".

(** [jsonparser.Get(data, keys...)] *)
Definition Get (data : bytes) (keys : list string)
  : bytes * jsonparser.ValueType * option error :=
  match document (string_of_bytes data) with
  | None => ([], jsonparser.NotExist, Some malformed)
  | Some n =>
      match at_path n keys with
      | None => ([], jsonparser.NotExist, Some jsonparser.KeyPathNotFoundError)
      | Some v => (bytes_of_string (node_raw v), node_ty v, None)
      end
  end.

(** [jsonparser.ArrayEach(data, cb)]: the elements given to [cb]. *)
Definition ArrayEach (data : bytes)
  : list (bytes * jsonparser.ValueType) * option error :=
  match document (string_of_bytes data) with
  | Some (Node jsonparser.Array _ items _) =>
      (map (fun v => (bytes_of_string (node_raw v), node_ty v)) items, None)
  | _ => ([], Some malformed)
  end.

(** Modelled from the spec: [response.CallFrame] is declared in
    relayer2-base; the spec calls it a single structured call-frame
    object.  It is taken here as a struct that encoding/json decodes by
    its default rules, and is represented by the members decoded into
    it, each with its slice. *)
Definition Frame : Type := list (string * string).

(** [json.Unmarshal(value, trace)] for that struct: an object decodes,
    null leaves the struct as it is, any other value is a type error,
    and bytes that are no document are a syntax error. *)
Definition Unmarshal (value : bytes) (trace : Frame) : Frame * option error :=
  match document (string_of_bytes value) with
  | Some (Node jsonparser.Object _ _ ms) =>
      ((trace ++ map (fun kv => (fst kv, node_raw (snd kv))) ms)%list, None)
  | Some (Node jsonparser.Null _ _ _) => (trace, None)
  | Some _ =>
      (trace, Some (Foreign "encoding/json"
                      "cannot unmarshal into Go value of type response.CallFrame"))
  | None => (trace, Some (Foreign "encoding/json" "invalid character"))
  end.

(** The value of a hexadecimal digit. *)
Definition hex_of_ascii (c : ascii) : option Z :=
  let n := Z.of_nat (nat_of_ascii c) in
  if (48 <=? n) && (n <=? 57) then Some (n - 48)
  else if (97 <=? n) && (n <=? 102) then Some (n - 87)
  else if (65 <=? n) && (n <=? 70) then Some (n - 55)
  else None.

Fixpoint hex_value (s : string) (acc : Z) : option Z :=
  match s with
  | EmptyString => Some acc
  | String c r =>
      match hex_of_ascii c with
      | Some d => hex_value r (acc * 16 + d)
      | None => None
      end
  end.

Definition MalformedNumber : error := Foreign "common" "malformed number".

(** Modelled from the spec: [common.Uint256] is declared in
    relayer2-base.  The spec has the gas estimate as an unsigned integer
    of fixed width, decoded from a [0x]-prefixed hexadecimal numeral,
    "failing with MalformedNumber on overflow or bad format".  The value
    is kept as the integer below 2^256. *)
Definition UnmarshalJSON (b : bytes) (u : Z) : Z * option error :=
  match string_of_bytes b with
  | String "0" (String "x" (String c r)) =>
      match hex_value (String c r) 0 with
      | Some v => if v <? 2 ^ 256 then (v, None) else (u, Some MalformedNumber)
      | None => (u, Some MalformedNumber)
      end
  | _ => (u, Some MalformedNumber)
  end.

(** Sample values of the remaining types: a hash and a call are kept as
    the JSON text they marshal to. *)
#[global] Instance library : Library := {
  H256 := string;
  TransactionForCall := string;
  CallFrame := Frame;
  Uint256 := Z;
  EarliestBlockNumber := 0;
  LatestBlockNumber := -1;
  PendingBlockNumber := -2;
  jsonparser_Get := Get;
  jsonparser_ArrayEach := ArrayEach;
  new_CallFrame := [];
  json_Unmarshal := Unmarshal;
  new_Uint256 := 0;
  Uint256_UnmarshalJSON := UnmarshalJSON;
  json_Marshal_H256 := fun h => inl (bytes_of_string (quoted h));
  json_Marshal_TransactionForCall := fun tx => inl (bytes_of_string tx);
  json_Marshal_BN64 := fun n => inl (bytes_of_string (quoted (Sprintf_0x_x n)))
}.

(** [{"id":1,"jsonrpc":"2.0","result":<result>}] *)
Definition result_response (result : string) : bytes :=
  bytes_of_string
    ("{" ++ quoted "id" ++ ":1," ++ quoted "jsonrpc" ++ ":" ++ quoted "2.0" ++ ","
         ++ quoted "result" ++ ":" ++ result ++ "}").

(** [{"type":"CALL"}] *)
Definition call_frame : string :=
  "{" ++ quoted "type" ++ ":" ++ quoted "CALL" ++ "}".

(** [{"error":{"message":"<message>","data":"<data>"}}] *)
Definition error_response (message data : string) : bytes :=
bytes_of_string
  ("{" ++ quoted "error" ++ ":{" ++ quoted "message" ++ ":" ++ quoted message ++ ","
       ++ quoted "data" ++ ":" ++ quoted data ++ "}}").




End Sample.

(** ** Several callers of [request]

    The statements of [request], and of [reconnect] where [request] calls
    it before taking the mutex, as the program points of a caller; the
    callers share the client struct and take turns in any order, one
    statement at a time.  The environment is the friendly one: the
    address exists, every dial gives a new socket, every write and read
    succeeds; the reconnect after a broken pipe therefore never runs.
    Sockets are numbered in the order they are opened, and nothing in
    [proxy.go] closes a socket short of [Close]. *)
Module Concurrent.

Inductive pc : Type :=
| AtNilTest            (* if rc.conn == nil *)
| AtStat               (* reconnect: os.Stat(rc.address) *)
| AtDial               (* reconnect: c, err := net.Dial(...) *)
| AtAssign (c : Conn)  (* reconnect: rc.conn = c *)
| AtLock               (* rc.lock.Lock() *)
| AtSetDeadline        (* rc.conn.SetDeadline(...) *)
| AtWriteLength        (* binary.Write(rc.conn, ..., uint32(len(req))) *)
| AtWriteBody          (* rc.conn.Write(req) *)
| AtReadLength         (* binary.Read(rc.conn, ..., &l) *)
| AtReadBody           (* io.ReadFull(rc.conn, buf) *)
| AtUnlock             (* the deferred rc.lock.Unlock() *)
| Returned
| Panicked.

(** What a caller puts on a socket. *)
Inductive part : Type := LengthOf (caller : nat) | BodyOf (caller : nat).

Record Shared : Type := mkShared {
  conn : option Conn;               (* rc.conn *)
  lock : option nat;                (* the caller holding rc.lock *)
  opened : nat;                     (* sockets opened so far: 0 .. opened-1 *)
  wire : list (Conn * part);        (* what was written, oldest first *)
  callers : list pc
}.

Definition set_pc (t : nat) (p : pc) (l : list pc) : list pc :=
  firstn t l ++ p :: skipn (S t) l.

Definition move (s : Shared) (t : nat) (p : pc) : Shared :=
  mkShared (conn s) (lock s) (opened s) (wire s) (set_pc t p (callers s)).

(** A statement that uses [rc.conn]: a nil interface panics. *)
Definition on_conn (s : Shared) (t : nat) (k : Conn -> Shared) : Shared :=
  match conn s with
  | Some c => k c
  | None => move s t Panicked
  end.

(** One statement of caller [t]; [None] when the caller cannot move
    (it waits for the mutex, or it is through). *)
Definition step (t : nat) (s : Shared) : option Shared :=
  match nth_error (callers s) t with
  | None => None
  | Some p =>
      match p with
      | AtNilTest =>
          Some (move s t (match conn s with None => AtStat | Some _ => AtLock end))
      | AtStat => Some (move s t AtDial)
      | AtDial =>
          Some (mkShared (conn s) (lock s) (S (opened s)) (wire s)
                  (set_pc t (AtAssign (opened s)) (callers s)))
      | AtAssign c =>
          Some (mkShared (Some c) (lock s) (opened s) (wire s)
                  (set_pc t AtLock (callers s)))
      | AtLock =>
          match lock s with
          | Some _ => None
          | None =>
              Some (mkShared (conn s) (Some t) (opened s) (wire s)
                      (set_pc t AtSetDeadline (callers s)))
          end
      | AtSetDeadline => Some (on_conn s t (fun _ => move s t AtWriteLength))
      | AtWriteLength =>
          Some (on_conn s t (fun c =>
                  mkShared (conn s) (lock s) (opened s)
                    (wire s ++ [(c, LengthOf t)])
                    (set_pc t AtWriteBody (callers s))))
      | AtWriteBody =>
          Some (on_conn s t (fun c =>
                  mkShared (conn s) (lock s) (opened s)
                    (wire s ++ [(c, BodyOf t)])
                    (set_pc t AtReadLength (callers s))))
      | AtReadLength => Some (on_conn s t (fun _ => move s t AtReadBody))
      | AtReadBody => Some (on_conn s t (fun _ => move s t AtUnlock))
      | AtUnlock =>
          Some (mkShared (conn s) None (opened s) (wire s)
                  (set_pc t Returned (callers s)))
      | Returned => None
      | Panicked =>
          match lock s with
          | Some h =>
              if Nat.eqb h t
              then Some (mkShared (conn s) None (opened s) (wire s) (callers s))
              else None
          | None => None
          end
      end
  end.

(** The callers move in the order of the schedule; a caller that
    cannot move when its turn comes loses the turn. *)
Fixpoint run (schedule : list nat) (s : Shared) : Shared :=
  match schedule with
  | [] => s
  | t :: rest =>
      run rest (match step t s with Some s' => s' | None => s end)
  end.

(** What socket [c] received. *)
Definition received (c : Conn) (s : Shared) : list part :=
  map snd (filter (fun e => Nat.eqb (fst e) c) (wire s)).

(** A new client, not yet connected, and [n] callers about to enter
    [request]. *)
Definition fresh (n : nat) : Shared :=
  mkShared None None 0 [] (repeat AtNilTest n).

(** A client connected on socket 0, and [n] callers. *)
Definition connected (n : nat) : Shared :=
  mkShared (Some 0%nat) None 1 [] (repeat AtNilTest n).

(** The caller is between [Lock] and [Unlock]. *)
Definition in_exchange (p : pc) : bool :=
  match p with
  | AtSetDeadline | AtWriteLength | AtWriteBody | AtReadLength | AtReadBody
  | AtUnlock => true
  | _ => false
  end.

(** The program points of a caller that found the client connected. *)
Definition steady (p : pc) : Prop :=
  match p with
  | AtStat | AtDial | AtAssign _ | Panicked => False
  | _ => True
  end.

(** The frame of caller [t] as socket 0 receives it. *)
Definition frame (t : nat) : list (Conn * part) :=
  [(0%nat, LengthOf t); (0%nat, BodyOf t)].

(** The length written by the caller that holds the mutex and has not
    written its body yet. *)
Definition pending (s : Shared) : list (Conn * part) :=
  match lock s with
  | Some t =>
      match nth_error (callers s) t with
      | Some AtWriteBody => [(0%nat, LengthOf t)]
      | _ => []
      end
  | None => []
  end.

(** What holds of a connected client at every moment: the connection
    and the number of sockets stay, a caller between [Lock] and [Unlock]
    holds the mutex, and the socket has received whole frames, then
    what is pending. *)
Record Inv (s : Shared) : Prop := mkInv {
  inv_conn : conn s = Some 0%nat;
  inv_opened : opened s = 1%nat;
  inv_steady : forall t p, nth_error (callers s) t = Some p -> steady p;
  inv_lock : forall t p,
      nth_error (callers s) t = Some p -> in_exchange p = true -> lock s = Some t;
  inv_wire : exists done, wire s = (List.concat (map frame done) ++ pending s)%list
}.

(** The program points before the dial has been made. *)
Definition before_dial (p : pc) : bool :=
  match p with AtNilTest | AtStat | AtDial => true | _ => false end.

(** How many callers have not dialled, nor found the client connected. *)
Definition not_dialled (l : list pc) : nat := List.length (filter before_dial l).

(** What holds at every moment, connected or not: a caller between
    [Lock] and [Unlock] holds the mutex, and the sockets opened so far
    are no more than the callers that are past the dial. *)
Record Race (s : Shared) : Prop := mkRace {
  race_lock : forall t p,
      nth_error (callers s) t = Some p -> in_exchange p = true -> lock s = Some t;
  race_opened : (opened s + not_dialled (callers s) <= List.length (callers s))%nat
}.

End Concurrent.

(** ** Observations on a run *)

Section Observations.

Context {W : Type} {Sys : System W}.

(** The entries a call added to the log. *)
Definition added (before after : State W) : list Event :=
  skipn (List.length (log before)) (log after).

(** On the connection [c], from the state [s]: the deadline is set and
    the write of the four length bytes of [req] then fails with a broken
    pipe. *)
Definition length_write_broken_pipe (c : Conn) (req : bytes) (s : State W) : bool :=
  let (d, w1) := conn_SetDeadline c (timeout (rc s)) (world s) in
  match d with
  | Some _ => false
  | None =>
      match fst (conn_Write c (PutUint32 (uint32 (len req))) w1) with
      | Some e => errors_Is e EPIPE
      | None => false
      end
  end.

(** On the connection [c], from the state [s]: the exchange gets as far
    as reading the body of the response; the length announced, the bytes
    that arrived and the error of that last read. *)
Definition body_read (c : Conn) (req : bytes) (s : State W)
  : option (Z * (bytes * option error)) :=
  let (d, w1) := conn_SetDeadline c (timeout (rc s)) (world s) in
  match d with
  | Some _ => None
  | None =>
      let (h, w2) := conn_Write c (PutUint32 (uint32 (len req))) w1 in
      match h with
      | Some _ => None
      | None =>
          let (b, w3) := conn_Write c req w2 in
          match b with
          | Some _ => None
          | None =>
              let (rl, w4) := io_ReadFull c 4 w3 in
              match rl with
              | (_, Some _) => None
              | (lb, None) => Some (Uint32 lb, fst (io_ReadFull c (Uint32 lb) w4))
              end
          end
      end
  end.


(** On the connection [c], from the state [s], once the deadline is set
    and the write of the four length bytes of [req] has been tried: the
    socket [net.Dial] hands out to a reconnect made then; none when
    [os.Stat] finds the path missing or the dial fails. *)
Definition redial (c : Conn) (req : bytes) (s : State W) : option Conn :=
  let w1 := snd (conn_SetDeadline c (timeout (rc s)) (world s)) in
  let w2 := snd (conn_Write c (PutUint32 (uint32 (len req))) w1) in
  let (err, w3) := os_Stat (address (rc s)) w2 in
  if os_IsNotExist err then None
  else
    match fst (net_Dial (network (rc s)) (address (rc s)) w3) with
    | inl c' => Some c'
    | inr _ => None
    end.

End Observations.

(** ** Observations on arguments, responses and results *)

(** The value of a numeral made of decimal digits only, most significant
    digit first; [acc] is the value of the digits already read. *)
Fixpoint digits_value (s : string) (acc : Z) : option Z :=
  match s with
  | EmptyString => Some acc
  | String c r =>
      match digit_of_ascii c with
      | Some d => digits_value r (acc * 10 + d)
      | None => None
      end
  end.

(** [s] is a decimal integer, and its value: at least one digit, nothing
    but digits. *)
Definition decimal_value (s : string) : option Z :=
  match s with
  | EmptyString => None
  | _ => digits_value s 0
  end.

(** Of a result and an error, exactly one is there; at least one is
    there; both are there. *)
Definition exactly_one {A : Type} (out : option A * option error) : bool :=
  match out with
  | (Some _, None) | (None, Some _) => true
  | _ => false
  end.

Definition at_least_one {A : Type} (out : option A * option error) : bool :=
  match out with
  | (None, None) => false
  | _ => true
  end.


Section Shapes.

Context {Lib : Library}.

(** The dynamic type of the argument is [common.H256]. *)
Definition is_H256 (a : any) : bool :=
  match a with AnyH256 _ => true | _ => false end.

(** The dynamic type of the argument is [engine.TransactionForCall]. *)
Definition is_TransactionForCall (a : any) : bool :=
  match a with AnyTransactionForCall _ => true | _ => false end.

(** The element decodes into the trace shape. *)
Definition decodes (elem : bytes * jsonparser.ValueType) : bool :=
  match snd (json_Unmarshal (fst elem) new_CallFrame) with
  | None => true
  | Some _ => false
  end.

(** How many elements of the array decode into the trace shape. *)
Definition decodable (elems : list (bytes * jsonparser.ValueType)) : nat :=
  List.length (filter decodes elems).

End Shapes.

(** ** Observations on the log of a call *)

Definition is_lock (e : Event) : bool :=
  match e with EvLock => true | _ => false end.
Definition is_unlock (e : Event) : bool :=
  match e with EvUnlock => true | _ => false end.

(** A call of [reconnect]: [os.Stat] or [net.Dial]. *)
Definition is_connect (e : Event) : bool :=
  match e with EvStat _ | EvDial _ _ => true | _ => false end.

(** The socket a call is made on, for the calls made on a socket. *)
Definition socket_of (e : Event) : option Conn :=
  match e with
  | EvSetDeadline c _ | EvWrite c _ | EvReadFull c _ | EvClose c => Some c
  | _ => None
  end.

(** No entry of the log is a call on a socket other than [c]. *)
Definition only_on (c : Conn) (l : list Event) : bool :=
  forallb (fun e => match socket_of e with
                    | Some c' => Nat.eqb c' c
                    | None => true
                    end) l.

(** No entry of the log is a call on a socket, or on the mutex. *)
Definition off_socket (l : list Event) : bool :=
  forallb (fun e => match socket_of e with
                    | Some _ => false
                    | None => negb (is_lock e || is_unlock e)
                    end) l.

(** [parts] with [sep] between them: what the loop of [buildRequest]
    leaves between the brackets. *)
Fixpoint joined (sep : bytes) (parts : list bytes) : bytes :=
  match parts with
  | [] => []
  | [p] => p
  | p :: rest => (p ++ sep ++ joined sep rest)%list
  end.

(** The text [buildRequest] puts in front of the parameters. *)
Definition request_head (method : string) : bytes :=
  bytes_of_string
    ("{" ++ quoted "id" ++ ":1," ++ quoted "jsonrpc" ++ ":" ++ quoted "2.0"
         ++ "," ++ quoted "method" ++ ":" ++ quoted method
         ++ "," ++ quoted "params" ++ ":[").

(** A decimal numeral with a minus sign in front, and the value of its
    digits. *)
Definition negative_decimal (s : string) : option Z :=
  match s with
  | String "-" digits => decimal_value digits
  | _ => None
  end.

(** The message of an engine error: what follows the fixed prefix. *)
Definition EngineError (detail : string) : error :=
  New ("engine error: " ++ detail).

(** ** The shape of a run of the exchange *)

Section RunShape.

Context {W : Type}.

(** What holds of the log and of the client after the locked part of
    [request], on the connection [c]. *)
Record exchange_facts (s s' : State W) (c : Conn) (l : list Event) : Prop := {
  xf_log : log s' = (log s ++ l)%list;
  xf_shape : exists mid,
      l = (EvLock :: mid ++ [EvUnlock])%list /\
      forallb (fun e => negb (is_lock e || is_unlock e)) mid = true;
  xf_start : exists rest, l = EvLock :: EvSetDeadline c (timeout (rc s)) :: rest;
  xf_socket : only_on c l = true;
  xf_reconnects : (reconnects l <= 1)%nat;
  xf_dials : (dials l <= reconnects l)%nat;
  xf_writes : (writes l <= 2)%nat;
  xf_client : rc s' = rc s \/
              (exists c', rc s' = set_conn (rc s) (Some c') /\ dials l = 1%nat)
}.

End RunShape.

(** * Properties *)

(** ** The connection manager *)

Section ClientFacts.

Context {W : Type} {Sys : System W}.

Lemma count_app (p : Event -> bool) (l1 l2 : list Event) :
  count p (l1 ++ l2) = (count p l1 + count p l2)%nat.
Proof.
  unfold count. rewrite filter_app, length_app. reflexivity.
Qed.

Lemma count_nil (p : Event -> bool) : count p [] = 0%nat.
Proof. reflexivity. Qed.

Lemma count_cons (p : Event -> bool) (e : Event) (l : list Event) :
  count p (e :: l) = ((if p e then 1 else 0) + count p l)%nat.
Proof.
  unfold count. simpl. destruct (p e); reflexivity.
Qed.

Lemma added_app (s : State W) (w : W) (r : rpcClient) (l : list Event) :
  added s (mkState w r (log s ++ l)) = l.
Proof.
  unfold added; simpl.
  rewrite skipn_app, skipn_all, Nat.sub_diag. reflexivity.
Qed.

(** What [reconnect] does, by the answer of [os.Stat] and of [net.Dial]. *)
Lemma reconnect_run (s : State W) :
  let a := address (rc s) in
  let n := network (rc s) in
  let (err, w1) := os_Stat a (world s) in
  reconnect s =
    if os_IsNotExist err
    then (Returns (Some EndpointUnavailable), mkState w1 (rc s) (log s ++ [EvStat a]))
    else
      let (d, w2) := net_Dial n a w1 in
      match d with
      | inr _ => (Returns (Some EndpointUnavailable),
                  mkState w2 (rc s) (log s ++ [EvStat a; EvDial n a]))
      | inl c => (Returns None,
                  mkState w2 (set_conn (rc s) (Some c)) (log s ++ [EvStat a; EvDial n a]))
      end.
Proof.
  cbv zeta. unfold reconnect, bind, call, get_rc, put_conn, ret; simpl.
  destruct (os_Stat (address (rc s)) (world s)) as [err w1]; simpl.
  destruct (os_IsNotExist err); [reflexivity|]. simpl.
  destruct (net_Dial (network (rc s)) (address (rc s)) w1) as [[c|e] w2]; simpl;
    rewrite <- app_assoc; reflexivity.
Qed.

(** C10: whatever the transport kind, when [os.Stat] reports that the
    configured address does not exist as a filesystem path, [reconnect]
    fails with the EndpointUnavailable message and never dials, whatever
    [net.Dial] would have answered: the only call made is the [os.Stat],
    and the client keeps the connection it had. *)
Theorem reconnect_needs_existing_path (s : State W) :
  os_IsNotExist (fst (os_Stat (address (rc s)) (world s))) = true ->
  exists s',
    reconnect s = (Returns (Some EndpointUnavailable), s') /\
    rc s' = rc s /\
    added s s' = [EvStat (address (rc s))] /\
    dials (added s s') = 0%nat.
Proof.
  intros Hstat. pose proof (reconnect_run s) as Hrun. cbv zeta in Hrun.
  destruct (os_Stat (address (rc s)) (world s)) as [err w1]; simpl in Hstat.
  rewrite Hstat in Hrun. eexists; split; [exact Hrun|].
  rewrite added_app. repeat split.
Qed.

End ClientFacts.


Section ExchangeFacts.

Context {W : Type} {Sys : System W}.

(** Equations of the monad, one per kind of step. *)
Lemma bind_ret {A B} (a : A) (k : A -> M W B) s : bind (ret a) k s = k a s.
Proof. reflexivity. Qed.
Lemma bind_get_rc {B} (k : rpcClient -> M W B) s : bind get_rc k s = k (rc s) s.
Proof. reflexivity. Qed.
Lemma bind_call {A B} (e : Event) (f : W -> A * W) (k : A -> M W B) s :
  bind (call e f) k s =
  k (fst (f (world s))) (mkState (snd (f (world s))) (rc s) (log s ++ [e])).
Proof. unfold bind, call. destruct (f (world s)); reflexivity. Qed.
Lemma bind_the_conn {B} (k : Conn -> M W B) s c :
  conn (rc s) = Some c -> bind the_conn k s = k c s.
Proof. intros H. unfold the_conn, bind, get_rc, ret. rewrite H. reflexivity. Qed.

Lemma reconnect_log (s : State W) :
  exists o s' l,
    reconnect s = (Returns o, s') /\ log s' = (log s ++ l)%list /\
    (o = None \/ o = Some EndpointUnavailable) /\
    reconnects l = 1%nat /\ (dials l <= 1)%nat /\ writes l = 0%nat.
Proof.
  pose proof (reconnect_run s) as Hrun. cbv zeta in Hrun.
  destruct (os_Stat (address (rc s)) (world s)) as [err w1].
  destruct (os_IsNotExist err).
  - do 3 eexists. split; [exact Hrun|]. simpl. repeat split; auto.
  - destruct (net_Dial (network (rc s)) (address (rc s)) w1) as [[c'|e] w2];
      do 3 eexists; (split; [exact Hrun|]); simpl; repeat split; auto.
Qed.

Ltac step c Hc :=
  repeat first
    [ rewrite bind_get_rc
    | rewrite (bind_the_conn _ _ c) by exact Hc
    | rewrite bind_call
    | rewrite bind_ret ];
  cbn [rc world log fst snd].

Ltac finish :=
  do 2 eexists; split; [reflexivity|];
  cbn [rc world log]; rewrite <- ?app_assoc, added_app; cbn [app].

(** C2, as the code has it: on an established connection, a reconnect is
    attempted exactly when the write of the four length bytes fails with
    a broken pipe, and then exactly once; that call writes nothing more
    and returns no bytes and a non-nil error, whether or not the reconnect
    succeeded: the EndpointUnavailable error of the reconnect when it
    failed, the error of the write when it succeeded.  Every other failure (the deadline, the length bytes with
    another error, the body of the frame with any error, a broken pipe
    included, either read) and every success leave the log without a
    reconnect. *)
Theorem request_reconnects_on_length_write_broken_pipe (s : State W) (c : Conn)
    (req : bytes) :
  conn (rc s) = Some c ->
  exists out s',
    request req s = (Returns out, s') /\
    reconnects (added s s') =
      (if length_write_broken_pipe c req s then 1 else 0)%nat /\
    (length_write_broken_pipe c req s = true ->
       fst out = None /\
       (snd out = Some EndpointUnavailable \/
        exists e, snd out = Some e /\ errors_Is e EPIPE = true) /\
       writes (added s s') = 1%nat /\ (dials (added s s') <= 1)%nat).
Proof.
  intros Hc.
  unfold request. rewrite bind_get_rc, Hc, bind_ret.
  unfold with_lock, emit, exchange, length_write_broken_pipe. step c Hc.
  destruct (conn_SetDeadline c (timeout (rc s)) (world s)) as [[e|] w1];
    cbn [fst snd]; [unfold ret; finish; split; [reflexivity|discriminate]|].
  step c Hc.
  destruct (conn_Write c (PutUint32 (uint32 (len req))) w1) as [[e|] w2];
    cbn [fst snd].
  - destruct (errors_Is e EPIPE) eqn:He;
      [|unfold ret; finish; split; [reflexivity|discriminate]].
    unfold bind at 1.
    match goal with
    | |- context [reconnect ?st] =>
        destruct (reconnect_log st) as (o & s' & l & Hr & Hl & Ho & Hn & Hd & Hw);
        rewrite Hr
    end.
    cbn [log] in Hl.
    assert (He' : forall e', o = Some e' -> e' = EndpointUnavailable)
      by (intros e' ->; destruct Ho as [Ho|Ho]; congruence).
    destruct o as [e'|]; unfold ret; do 2 eexists; (split; [reflexivity|]);
      cbn [rc world log]; rewrite Hl, <- ?app_assoc, added_app; cbn [app];
      change (EvLock :: EvSetDeadline c (timeout (rc s))
                :: EvWrite c (PutUint32 (uint32 (len req))) :: l ++ [EvUnlock])%list
        with ([EvLock; EvSetDeadline c (timeout (rc s));
               EvWrite c (PutUint32 (uint32 (len req)))] ++ l ++ [EvUnlock])%list;
      unfold reconnects, dials, writes in *; rewrite !count_app, ?Hn, ?Hw;
      (split; [reflexivity|]); intros _; cbn [fst snd];
      (split; [reflexivity|]);
      (split; [first [left; rewrite (He' e' eq_refl); reflexivity
                     |right; exists e; split; [reflexivity|exact He]]|]);
      split; rewrite !count_cons, !count_nil; simpl; lia.
  - step c Hc.
    destruct (conn_Write c req w2) as [[e|] w3]; cbn [fst snd];
      [unfold ret; finish; split; [reflexivity|discriminate]|].
    step c Hc.
    destruct (io_ReadFull c 4 w3) as [[lb [e|]] w4]; cbn [fst snd];
      [unfold ret; finish; split; [reflexivity|discriminate]|].
    step c Hc. unfold ret. finish. split; [reflexivity|discriminate].
Qed.

(** With a connection in place, the locked part of [request] returns,
    and returns bytes or an error. *)
Lemma exchange_returns (s : State W) (c : Conn) (req : bytes) :
  conn (rc s) = Some c ->
  exists out s',
    with_lock (exchange req) s = (Returns out, s') /\ at_least_one out = true.
Proof.
  intros Hc. unfold with_lock, emit, exchange. step c Hc.
  destruct (conn_SetDeadline c (timeout (rc s)) (world s)) as [[e|] w1];
    cbn [fst snd]; [unfold ret; eauto|].
  step c Hc.
  destruct (conn_Write c (PutUint32 (uint32 (len req))) w1) as [[e|] w2];
    cbn [fst snd].
  - destruct (errors_Is e EPIPE); [|unfold ret; eauto].
    unfold bind at 1.
    match goal with
    | |- context [reconnect ?st] =>
        destruct (reconnect_log st) as (o & s' & l & Hr & _); rewrite Hr
    end.
    destruct o; unfold ret; eauto.
  - step c Hc.
    destruct (conn_Write c req w2) as [[e|] w3]; cbn [fst snd];
      [unfold ret; eauto|].
    step c Hc.
    destruct (io_ReadFull c 4 w3) as [[lb [e|]] w4]; cbn [fst snd];
      [unfold ret; eauto|].
    step c Hc. unfold ret. eauto.
Qed.

(** [request] never panics, and returns bytes or an error. *)
Lemma request_returns (s : State W) (req : bytes) :
  exists out s', request req s = (Returns out, s') /\ at_least_one out = true.
Proof.
  unfold request. rewrite bind_get_rc.
  destruct (conn (rc s)) as [c|] eqn:Hc.
  - rewrite bind_ret. apply (exchange_returns s c req Hc).
  - unfold bind at 1. pose proof (reconnect_run s) as Hrun. cbv zeta in Hrun.
    destruct (os_Stat (address (rc s)) (world s)) as [err w1].
    destruct (os_IsNotExist err); [rewrite Hrun; unfold ret; eauto|].
    destruct (net_Dial (network (rc s)) (address (rc s)) w1) as [[c|e] w2];
      rewrite Hrun; [|unfold ret; eauto].
    eapply exchange_returns. reflexivity.
Qed.



End ExchangeFacts.

(** ** Numerals *)

Lemma digit_of_ascii_range (c : ascii) (d : Z) :
  digit_of_ascii c = Some d -> 0 <= d <= 9.
Proof.
  unfold digit_of_ascii. cbv zeta.
  destruct (Z.leb_spec 48 (Z.of_nat (nat_of_ascii c)));
    destruct (Z.leb_spec (Z.of_nat (nat_of_ascii c)) 57); simpl;
    try discriminate.
  intros [= <-]. lia.
Qed.

Lemma digit_is_no_sign (c : ascii) (d : Z) :
  digit_of_ascii c = Some d ->
  Ascii.eqb c "-" = false /\ Ascii.eqb c "+" = false.
Proof.
  intros H. split.
  - destruct (Ascii.eqb_spec c "-") as [->|]; [discriminate H|reflexivity].
  - destruct (Ascii.eqb_spec c "+") as [->|]; [discriminate H|reflexivity].
Qed.

Lemma digits_value_ge (s : string) :
  forall a v, digits_value s a = Some v -> 0 <= a -> a <= v.
Proof.
  induction s as [|c r IH]; simpl; intros a v H Ha.
  - injection H as <-. lia.
  - destruct (digit_of_ascii c) as [d|] eqn:D; [|discriminate].
    apply digit_of_ascii_range in D. apply IH in H; lia.
Qed.

(** The loop of [ParseUint] computes the value of a numeral that fits in
    64 bits. *)
Lemma ParseUint_loop_digits (s : string) :
  forall a v,
    digits_value s a = Some v -> 0 <= a -> v < 2 ^ 64 ->
    ParseUint_loop s a = inl v.
Proof.
  induction s as [|c r IH]; simpl; intros a v H Ha Hv.
  - congruence.
  - destruct (digit_of_ascii c) as [d|] eqn:D; [|discriminate].
    pose proof (digit_of_ascii_range _ _ D) as Hd.
    pose proof (digits_value_ge _ _ _ H ltac:(lia)) as Hge.
    change (maxUint64 / 10 + 1) with 1844674407370955162.
    change maxUint64 with 18446744073709551615.
    change (2 ^ 64) with 18446744073709551616 in *.
    destruct (Z.geb_spec a 1844674407370955162); [lia|].
    rewrite Z.mod_small by lia.
    destruct (Z.ltb_spec (a * 10 + d) (a * 10)); [lia|].
    destruct (Z.gtb_spec (a * 10 + d) 18446744073709551615); [lia|].
    simpl. apply IH; [exact H|lia|lia].
Qed.

(** [strconv.ParseInt] on a decimal numeral below 2^63 gives its value. *)
Lemma ParseInt_decimal (s : string) (v : Z) :
  decimal_value s = Some v -> v < 2 ^ 63 -> ParseInt s = inl v.
Proof.
  destruct s as [|c r]; [discriminate|]. unfold decimal_value. intros H Hv.
  assert (Hd : exists d, digit_of_ascii c = Some d).
  { simpl in H. destruct (digit_of_ascii c); [eauto|discriminate]. }
  destruct Hd as [d Hd]. destruct (digit_is_no_sign _ _ Hd) as [Hm Hp].
  unfold ParseInt. rewrite Hm, Hp. cbn [orb negb andb].
  unfold ParseUint.
  rewrite (ParseUint_loop_digits _ 0 v H ltac:(lia)) by
    (change (2 ^ 63) with 9223372036854775808 in Hv;
     change (2 ^ 64) with 18446744073709551616; lia).
  change (2 ^ 63) with 9223372036854775808 in *.
  destruct (Z.geb_spec v 9223372036854775808); [lia|]. reflexivity.
Qed.

(** A decimal numeral of 2^63 or more is a range error. *)
Lemma ParseInt_decimal_range (s : string) (v : Z) :
  decimal_value s = Some v -> 2 ^ 63 <= v < 2 ^ 64 ->
  ParseInt s = inr (NumError "ParseInt" s ErrRange).
Proof.
  destruct s as [|c r]; [discriminate|]. unfold decimal_value. intros H Hv.
  assert (Hd : exists d, digit_of_ascii c = Some d).
  { simpl in H. destruct (digit_of_ascii c); [eauto|discriminate]. }
  destruct Hd as [d Hd]. destruct (digit_is_no_sign _ _ Hd) as [Hm Hp].
  unfold ParseInt. rewrite Hm, Hp. cbn [orb negb andb].
  unfold ParseUint.
  rewrite (ParseUint_loop_digits _ 0 v H ltac:(lia)) by lia.
  change (2 ^ 63) with 9223372036854775808 in *.
  destruct (Z.geb_spec v 9223372036854775808); [reflexivity|lia].
Qed.

Lemma hex_of_ldigit (d : Z) :
  0 <= d < 16 -> Sample.hex_of_ascii (ldigit d) = Some d.
Proof.
  intros H.
  assert (d = 0 \/ d = 1 \/ d = 2 \/ d = 3 \/ d = 4 \/ d = 5 \/ d = 6 \/ d = 7 \/
          d = 8 \/ d = 9 \/ d = 10 \/ d = 11 \/ d = 12 \/ d = 13 \/ d = 14 \/ d = 15)
    as Hc by lia.
  repeat (destruct Hc as [->|Hc]; [reflexivity|]). subst d. reflexivity.
Qed.

Lemma hex_value_app (s t : string) :
  forall a,
    Sample.hex_value (s ++ t) a =
    match Sample.hex_value s a with
    | Some v => Sample.hex_value t v
    | None => None
    end.
Proof.
  induction s as [|c r IH]; simpl; intros a; [reflexivity|].
  destruct (Sample.hex_of_ascii c); [apply IH|reflexivity].
Qed.

Lemma string_app_assoc (a b c : string) : (a ++ b) ++ c = a ++ (b ++ c).
Proof.
  induction a as [|x a IH]; simpl; [reflexivity|]. rewrite IH. reflexivity.
Qed.

Lemma fmt_hex_buf (fuel : nat) :
  forall u buf, fmt_hex fuel u buf = fmt_hex fuel u "" ++ buf.
Proof.
  induction fuel as [|f IH]; simpl; intros u buf; [reflexivity|].
  destruct (u >=? 16); [|reflexivity].
  rewrite IH, (IH _ (String _ "")), string_app_assoc. reflexivity.
Qed.

Lemma nibbles (u : Z) : 0 <= u -> Z.shiftr u 4 * 16 + Z.land u 15 = u.
Proof.
  intros H. rewrite Z.shiftr_div_pow2 by lia.
  change 15 with (Z.ones 4). rewrite Z.land_ones by lia.
  change (2 ^ 4) with 16. pose proof (Z.div_mod u 16). lia.
Qed.

(** Reading back what [fmt] printed in base 16. *)
Lemma fmt_hex_value (fuel : nat) :
  forall u,
    0 <= u < 16 ^ (Z.of_nat fuel + 1) ->
    Sample.hex_value (fmt_hex fuel u "") 0 = Some u.
Proof.
  induction fuel as [|f IH]; intros u Hu.
  - change (16 ^ (Z.of_nat 0 + 1)) with 16 in Hu. simpl.
    change 15 with (Z.ones 4). rewrite Z.land_ones by lia.
    change (2 ^ 4) with 16. rewrite Z.mod_small by lia.
    rewrite hex_of_ldigit by lia. reflexivity.
  - cbn [fmt_hex]. destruct (Z.geb_spec u 16) as [Hge|Hlt].
    + rewrite fmt_hex_buf, hex_value_app.
      assert (Hs : 0 <= Z.shiftr u 4 < 16 ^ (Z.of_nat f + 1)).
      { rewrite Z.shiftr_div_pow2 by lia. change (2 ^ 4) with 16.
        replace (Z.of_nat (S f) + 1) with (Z.succ (Z.of_nat f + 1)) in Hu by lia.
        rewrite Z.pow_succ_r in Hu by lia.
        split; [apply Z.div_pos; lia|apply Z.div_lt_upper_bound; lia]. }
      rewrite (IH _ Hs). simpl.
      assert (Hl : 0 <= Z.land u 15 < 16).
      { change 15 with (Z.ones 4). rewrite Z.land_ones by lia.
        change (2 ^ 4) with 16. apply Z.mod_pos_bound. lia. }
      rewrite hex_of_ldigit by exact Hl. rewrite nibbles by lia. reflexivity.
    + simpl. rewrite hex_of_ldigit by lia. reflexivity.
Qed.

Lemma fmt_hex_first (fuel : nat) :
  forall u buf, exists c r, fmt_hex fuel u buf = String c r.
Proof.
  induction fuel as [|f IH]; simpl; intros u buf; [eauto|].
  destruct (u >=? 16); [apply IH|eauto].
Qed.

(** The sample [Uint256] reads back the numeral that
    [fmt.Sprintf("0x%x", v)] prints for a non-negative [int64]. *)
Lemma UnmarshalJSON_Sprintf (v u : Z) :
  0 <= v < 2 ^ 64 ->
  Sample.UnmarshalJSON (bytes_of_string (Sprintf_0x_x v)) u = (v, None).
Proof.
  intros Hv. unfold Sample.UnmarshalJSON, string_of_bytes, bytes_of_string.
  rewrite string_of_list_byte_of_string. unfold Sprintf_0x_x.
  destruct (Z.ltb_spec v 0); [lia|]. rewrite Z.abs_eq by lia.
  destruct (fmt_hex_first 15 v "") as (c & r & E).
  cbn [append]. rewrite E, <- E.
  rewrite fmt_hex_value
    by (change (16 ^ (Z.of_nat 15 + 1)) with (2 ^ 64); exact Hv).
  destruct (Z.ltb_spec v (2 ^ 256)) as [_|Hbig]; [reflexivity|].
  exfalso. apply (Z.lt_irrefl v). eapply Z.lt_le_trans; [apply Hv|].
  eapply Z.le_trans; [|exact Hbig]. apply Z.pow_le_mono_r; lia.
Qed.

(** ** The response interpreters *)

Section InterpreterFacts.

Context {Lib : Library}.

Lemma collect_traces_length (elems : list (bytes * jsonparser.ValueType)) :
  List.length (collect_traces elems) = decodable elems.
Proof.
  unfold decodable.
  induction elems as [|[value ty] rest IH]; simpl; [reflexivity|].
  unfold decodes; simpl.
  destruct (json_Unmarshal value new_CallFrame) as [trace [e|]]; simpl;
    rewrite IH; reflexivity.
Qed.

Lemma collect_traces_In (elems : list (bytes * jsonparser.ValueType))
    (trace : CallFrame) :
  In trace (collect_traces elems) ->
  exists value ty,
    In (value, ty) elems /\ json_Unmarshal value new_CallFrame = (trace, None).
Proof.
  induction elems as [|[value ty] rest IH]; simpl; [tauto|].
  destruct (json_Unmarshal value new_CallFrame) as [t [e|]] eqn:E; simpl.
  - intros H. destruct (IH H) as (v & y & Hin & Hv). eauto 6.
  - intros [<-|H]; [eauto 6|]. destruct (IH H) as (v & y & Hin & Hv). eauto 6.
Qed.

Lemma all_decode (elems : list (bytes * jsonparser.ValueType)) :
  forallb decodes elems = true -> decodable elems = List.length elems.
Proof.
  unfold decodable. induction elems as [|e rest IH]; simpl; [reflexivity|].
  destruct (decodes e); simpl; [|discriminate]. intros H. rewrite IH; auto.
Qed.

(** What [interpretTrace] makes of an array result. *)
Lemma interpretTrace_array (res result : bytes)
    (elems : list (bytes * jsonparser.ValueType)) (each : option error) :
  jsonparser_Get res ["result"] = (result, jsonparser.Array, None) ->
  jsonparser_ArrayEach result = (elems, each) ->
  (decodable elems = 1%nat ->
   exists value ty trace,
     In (value, ty) elems /\
     json_Unmarshal value new_CallFrame = (trace, None) /\
     interpretTrace res = (Some trace, each)) /\
  (decodable elems <> 1%nat ->
   interpretTrace res = (None, Some UnexpectedResponseShape)).
Proof.
  intros Hget Heach. unfold interpretTrace. rewrite Hget, Heach.
  rewrite <- collect_traces_length.
  destruct (collect_traces elems) as [|t [|t' l]] eqn:E; simpl; split;
    try (intros; discriminate); try (intros H; congruence); try reflexivity.
  intros _.
  destruct (collect_traces_In elems t) as (v & y & Hin & Hv);
    [rewrite E; left; reflexivity|]. eauto 7.
Qed.

Lemma interpretTrace_at_least_one (res : bytes) :
  at_least_one (interpretTrace res) = true.
Proof.
  unfold interpretTrace.
  destruct (jsonparser_Get res ["result"]) as [[result ty] [e|]].
  - destruct (jsonparser.is_KeyPathNotFound e); [|reflexivity].
    destruct ty; try reflexivity.
    + destruct (jsonparser_Get res ["error"; "message"]) as [[m mt] [e'|]];
        [reflexivity|destruct mt; reflexivity].
    + destruct (json_Unmarshal result new_CallFrame); reflexivity.
    + destruct (jsonparser_ArrayEach result) as [elems err].
      destruct (collect_traces elems) as [|t [|t' l]]; reflexivity.
  - destruct ty; try reflexivity.
    + destruct (jsonparser_Get res ["error"; "message"]) as [[m mt] [e'|]];
        [reflexivity|destruct mt; reflexivity].
    + destruct (json_Unmarshal result new_CallFrame); reflexivity.
    + destruct (jsonparser_ArrayEach result) as [elems err].
      destruct (collect_traces elems) as [|t [|t' l]]; reflexivity.
Qed.


Lemma handleEstimateGasError_exactly_one (res : bytes) :
  exactly_one (handleEstimateGasError res) = true.
Proof.
  unfold handleEstimateGasError.
  destruct (jsonparser_Get res ["error"; "data"]) as [[d dt] [e|]];
    destruct (jsonparser_Get res ["error"; "message"]) as [[m mt] [e'|]];
    destruct d; destruct m; reflexivity.
Qed.

Lemma parseEstimateGasResponse_exactly_one (res : bytes) :
  exactly_one (parseEstimateGasResponse res) = true.
Proof.
  unfold parseEstimateGasResponse.
  pose proof (handleEstimateGasError_exactly_one res) as H.
  destruct (jsonparser_Get res ["result"]) as [[result ty] [e|]]; [exact H|].
  destruct ty; try exact H.
  destruct (ParseInt (string_of_bytes result)) as [val|e]; [|reflexivity].
  destruct (Uint256_UnmarshalJSON _ new_Uint256) as [u [e|]]; reflexivity.
Qed.

(** What [parseEstimateGasResponse] makes of a decimal result below 2^63,
    whatever the library. *)
Lemma parseEstimateGasResponse_number (res : bytes) (tok : string) (V : Z) :
  jsonparser_Get res ["result"] = (bytes_of_string tok, jsonparser.Number, None) ->
  decimal_value tok = Some V -> V < 2 ^ 63 ->
  parseEstimateGasResponse res =
    match Uint256_UnmarshalJSON (bytes_of_string (Sprintf_0x_x V)) new_Uint256 with
    | (_, Some e) => (None, Some (Wrapf "failed to unmarshal result" e))
    | (resp, None) => (Some resp, None)
    end.
Proof.
  intros Hget Hdec HV. unfold parseEstimateGasResponse. rewrite Hget.
  unfold string_of_bytes, bytes_of_string at 1.
  rewrite string_of_list_byte_of_string, (ParseInt_decimal _ _ Hdec HV).
  reflexivity.
Qed.




End InterpreterFacts.

(** ** Whole operations *)

Section OperationFacts.

Context {W : Type} {Sys : System W} {Lib : Library}.

(** [TraceTransaction] is [interpretTrace] on the bytes of a successful
    exchange. *)
Lemma TraceTransaction_interprets (s s' : State W) (hash : H256) (req : bytes)
    (res : option bytes) :
  buildRequest "debug_traceTransaction" [PH256 hash] = inl req ->
  request req s = (Returns (res, None), s') ->
  TraceTransaction hash s =
    (Returns (interpretTrace (match res with Some b => b | None => [] end)), s').
Proof.
  intros Hb Hr. unfold TraceTransaction. rewrite Hb. unfold bind. rewrite Hr.
  reflexivity.
Qed.

Lemma TraceTransaction_returns (s : State W) (hash : H256) :
  exists out s',
    TraceTransaction hash s = (Returns out, s') /\ at_least_one out = true.
Proof.
  unfold TraceTransaction.
  destruct (buildRequest "debug_traceTransaction" [PH256 hash]) as [req|e];
    [|unfold ret; eauto].
  destruct (request_returns s req) as ([r [e|]] & s' & Hr & _);
    unfold bind; rewrite Hr; unfold ret; [eauto|].
  do 2 eexists. split; [reflexivity|]. apply interpretTrace_at_least_one.
Qed.

Lemma EstimateGas_returns (s : State W) (tx : TransactionForCall) (n : Z) :
  exists out s',
    EstimateGas tx (Some n) s = (Returns out, s') /\ exactly_one out = true.
Proof.
  unfold EstimateGas.
  destruct (buildRequest "eth_estimateGas" _) as [req|e]; [|unfold ret; eauto].
  destruct (request_returns s req) as ([r [e|]] & s' & Hr & _);
    unfold bind; rewrite Hr; unfold ret; [eauto|].
  do 2 eexists. split; [reflexivity|]. apply parseEstimateGasResponse_exactly_one.
Qed.



(** C3, as the code has it: when the result field of the response to
    the trace method is a JSON array, and of the elements its iteration
    hands over exactly one decodes into the trace shape,
    [TraceTransaction] returns the frame of that element together with
    the error of the iteration, so that it succeeds exactly when exactly
    one element decodes and the iteration reports no error; when no
    element or more than one decodes it fails with
    UnexpectedResponseShape, in particular on an array without elements
    and on an array of two or more elements that all decode. *)
Theorem TraceTransaction_array (s s' : State W) (hash : H256) (req res result : bytes)
    (elems : list (bytes * jsonparser.ValueType)) (each : option error) :
  buildRequest "debug_traceTransaction" [PH256 hash] = inl req ->
  request req s = (Returns (Some res, None), s') ->
  jsonparser_Get res ["result"] = (result, jsonparser.Array, None) ->
  jsonparser_ArrayEach result = (elems, each) ->
  (decodable elems = 1%nat ->
   exists value ty trace,
     In (value, ty) elems /\
     json_Unmarshal value new_CallFrame = (trace, None) /\
     TraceTransaction hash s = (Returns (Some trace, each), s')) /\
  (decodable elems <> 1%nat ->
   TraceTransaction hash s = (Returns (None, Some UnexpectedResponseShape), s')) /\
  ((exists trace, TraceTransaction hash s = (Returns (Some trace, None), s')) <->
   decodable elems = 1%nat /\ each = None) /\
  (elems = [] -> decodable elems <> 1%nat) /\
  ((2 <= List.length elems)%nat -> forallb decodes elems = true ->
   decodable elems <> 1%nat).
Proof.
  intros Hb Hr Hget Heach.
  rewrite (TraceTransaction_interprets s s' hash req (Some res) Hb Hr).
  destruct (interpretTrace_array res result elems each Hget Heach) as [H1 Hn].
  repeat split.
  - intros Hd. destruct (H1 Hd) as (v & y & t & Hin & Hv & Hi).
    exists v, y, t. rewrite Hi. auto.
  - intros Hd. rewrite (Hn Hd). reflexivity.
  - destruct (Nat.eq_dec (decodable elems) 1) as [Hd|Hd]; [exact Hd|].
    destruct H as (t & Ht). rewrite (Hn Hd) in Ht. discriminate.
  - destruct H as (t & Ht).
    destruct (Nat.eq_dec (decodable elems) 1) as [Hd|Hd].
    + destruct (H1 Hd) as (v & y & t' & _ & _ & Hi). rewrite Hi in Ht.
      congruence.
    + rewrite (Hn Hd) in Ht. discriminate.
  - intros [Hd ->]. destruct (H1 Hd) as (v & y & t & _ & _ & Hi).
    exists t. rewrite Hi. reflexivity.
  - intros ->. discriminate.
  - intros Hlen Hall. rewrite (all_decode _ Hall). lia.
Qed.


End OperationFacts.

(** ** The sample library on a numeric result *)

Lemma digit_neq (c x : ascii) (d : Z) :
  digit_of_ascii c = Some d -> digit_of_ascii x = None -> Ascii.eqb c x = false.
Proof.
  intros Hc Hx. destruct (Ascii.eqb_spec c x) as [->|]; [congruence|reflexivity].
Qed.

Lemma digit_is_no_delim (c : ascii) (d : Z) :
  digit_of_ascii c = Some d -> Sample.is_space c = false /\ Sample.is_delim c = false.
Proof.
  intros H. unfold Sample.is_delim, Sample.is_space.
  rewrite !(digit_neq c _ d H) by reflexivity. split; reflexivity.
Qed.

Lemma digits_value_tail (c : ascii) (r : string) (a v : Z) :
  digits_value (String c r) a = Some v ->
  exists d, digit_of_ascii c = Some d /\ digits_value r (a * 10 + d) = Some v.
Proof.
  simpl. destruct (digit_of_ascii c) as [d|]; [eauto|discriminate].
Qed.

Lemma scan_token_digits (s : string) :
  forall a v tail,
    digits_value s a = Some v ->
    Sample.scan_token (s ++ String "}" tail) = (s, String "}" tail).
Proof.
  induction s as [|c r IH]; intros a v tail H; [reflexivity|].
  destruct (digits_value_tail _ _ _ _ H) as (d & Hd & Hr).
  cbn [append Sample.scan_token].
  destruct (digit_is_no_delim _ _ Hd) as [_ ->].
  rewrite (IH _ _ tail Hr). reflexivity.
Qed.

(** A decimal numeral in front of a closing brace is read as a number. *)
Lemma scan_value_decimal (fuel : nat) (tok tail : string) (V : Z) :
  decimal_value tok = Some V ->
  Sample.scan_value (S fuel) (tok ++ String "}" tail) =
    Some (Sample.Node jsonparser.Number tok [] [], String "}" tail).
Proof.
  destruct tok as [|c r]; [discriminate|]. unfold decimal_value. intros H.
  destruct (digits_value_tail _ _ _ _ H) as (d & Hd & Hr).
  destruct (digit_is_no_delim _ _ Hd) as [Hs _].
  cbn [Sample.scan_value]. unfold Sample.scan_one.
  cbn [append Sample.skip_space]. rewrite Hs. cbv zeta.
  rewrite !(digit_neq c _ d Hd) by reflexivity.
  change (String c (r ++ String "}" tail)) with (String c r ++ String "}" tail).
  rewrite (scan_token_digits _ _ _ tail H).
  unfold Sample.token_type.
  rewrite !(digit_neq c _ d Hd) by reflexivity. cbn [orb]. rewrite Hd.
  reflexivity.
Qed.

Lemma scan_value_S (fuel : nat) (s : string) :
  Sample.scan_value (S fuel) s = Sample.scan_one (Sample.scan_value fuel) fuel s.
Proof. reflexivity. Qed.

#[local] Arguments Sample.scan_value : simpl never.
#[local] Arguments Sample.consumed : simpl never.

(** The sample response with a decimal result, read as a document. *)
Lemma scan_result_response (fuel : nat) (tok : string) (V : Z) :
  decimal_value tok = Some V ->
  exists raw,
    Sample.scan_value (S (S (S (S fuel))))
      (string_of_bytes (Sample.result_response tok)) =
    Some (Sample.Node jsonparser.Object raw []
            [("id", Sample.Node jsonparser.Number "1" [] []);
             ("jsonrpc", Sample.Node jsonparser.String "2.0" [] []);
             ("result", Sample.Node jsonparser.Number tok [] [])], "").
Proof.
  intros H. unfold Sample.result_response, string_of_bytes, bytes_of_string.
  rewrite string_of_list_byte_of_string.
  rewrite scan_value_S. cbn.
  rewrite scan_value_S. cbn. change (digit_of_ascii "1") with (Some 1). cbn.
  rewrite scan_value_S. cbn.
  rewrite (scan_value_decimal _ tok "" V H). cbn.
  eexists. reflexivity.
Qed.

(** [jsonparser.Get(res, "result")] on the sample response with a decimal
    result. *)
Lemma Get_result_decimal (tok : string) (V : Z) :
  decimal_value tok = Some V ->
  Sample.Get (Sample.result_response tok) ["result"] =
    (bytes_of_string tok, jsonparser.Number, None).
Proof.
  intros H. unfold Sample.Get, Sample.document.
  assert (Hlen : exists n, String.length (string_of_bytes (Sample.result_response tok))
                           = S (S (S n))).
  { unfold Sample.result_response, string_of_bytes, bytes_of_string.
    rewrite string_of_list_byte_of_string. cbn. eauto. }
  destruct Hlen as [n ->].
  destruct (scan_result_response n tok V H) as [raw ->].
  reflexivity.
Qed.

(** ** The gas estimate *)

(** C5, as the code has it: a result that is a decimal integer of value
    [V] below 2^63, the range of the [int64] it is parsed into, decodes
    to what the result type makes of the hexadecimal numeral of [V],
    whatever the library; with the sample result type that is the value
    [V] itself, so that the way through the hexadecimal numeral keeps the
    value. *)
Theorem parseEstimateGasResponse_decimal (tok : string) (V : Z) :
  decimal_value tok = Some V ->
  V < 2 ^ 63 ->
  (forall (Lib : Library) (res : bytes),
      jsonparser_Get res ["result"] = (bytes_of_string tok, jsonparser.Number, None) ->
      parseEstimateGasResponse res =
        match Uint256_UnmarshalJSON (bytes_of_string (Sprintf_0x_x V)) new_Uint256 with
        | (_, Some e) => (None, Some (Wrapf "failed to unmarshal result" e))
        | (resp, None) => (Some resp, None)
        end) /\
  Sample.UnmarshalJSON (bytes_of_string (Sprintf_0x_x V)) 0 = (V, None) /\
  parseEstimateGasResponse (Lib := Sample.library) (Sample.result_response tok) =
    (Some V, None).
Proof.
  intros Hdec HV.
  assert (H0 : 0 <= V).
  { destruct tok; [discriminate|]. apply (digits_value_ge _ 0 V Hdec). lia. }
  assert (Hhex : Sample.UnmarshalJSON (bytes_of_string (Sprintf_0x_x V)) 0 = (V, None)).
  { apply UnmarshalJSON_Sprintf. split; [exact H0|].
    eapply Z.lt_trans; [exact HV|reflexivity]. }
  split; [|split; [exact Hhex|]].
  - intros Lib res Hget. apply (parseEstimateGasResponse_number res tok V Hget Hdec HV).
  - rewrite (parseEstimateGasResponse_number (Lib := Sample.library) _ tok V
               (Get_result_decimal tok V Hdec) Hdec HV).
    change (@Uint256_UnmarshalJSON Sample.library) with Sample.UnmarshalJSON.
    change (@new_Uint256 Sample.library) with 0.
    rewrite Hhex. reflexivity.
Qed.

(** C6, as the code has it: the response with the result 6712759 decodes
    to the unsigned integer 6712759; the numeral the code derives on the
    way is 0x666db7, and reading that numeral gives 6712759 again. *)
Theorem estimate_6712759 :
  parseEstimateGasResponse (Lib := Sample.library) (Sample.result_response "6712759") =
    (Some 6712759, None) /\
  ParseInt "6712759" = inl 6712759 /\
  Sprintf_0x_x 6712759 = "0x666db7" /\
  Sample.UnmarshalJSON (bytes_of_string "0x666db7") 0 = (6712759, None).
Proof.
  repeat split; vm_compute; reflexivity.
Qed.

(** ** The hook adapter *)

Section HookFacts.

Context {W : Type} {Sys : System W} {Lib : Library}.

(** C1, as the code has it: for the method debug_traceTransaction, an
    argument list that does not have exactly one element, and a single
    argument that is not of the hash type, both make [Pre] fail with
    InvalidParams and report the call as not handled (the flag is false);
    nothing is sent and the response slot is left as it was. *)
Theorem Pre_trace_mismatch_not_handled (s : State W) (response : option Response)
    (args : list any) :
  List.length args <> 1%nat \/ (exists a, args = [a] /\ is_H256 a = false) ->
  Pre "debug_traceTransaction" response args s =
    (Returns (false, Some InvalidParams, response), s).
Proof.
  intros [Hlen | (a & -> & Ha)]; unfold Pre; simpl.
  - destruct (Nat.eqb_spec (List.length args) 1) as [E|_]; [contradiction|].
    reflexivity.
  - destruct a; simpl in Ha; try discriminate; reflexivity.
Qed.

(** C8, as the code has it: for the method eth_estimateGas and fewer than
    two arguments, [Pre] panics with an index out of range when the list
    is empty (index 0) and when its only element is a call transaction
    (index 1); when its only element is of another type, the type test on
    it comes first and [Pre] returns InvalidParams, handled. *)
Theorem Pre_estimateGas_short_args (s : State W) (response : option Response)
    (args : list any) :
  (List.length args < 2)%nat ->
  Pre "eth_estimateGas" response args s =
    match args with
    | [] => (Panics (IndexOutOfRange 0 0), s)
    | a :: _ =>
        if is_TransactionForCall a then (Panics (IndexOutOfRange 1 1), s)
        else (Returns (true, Some InvalidParams, response), s)
    end.
Proof.
  intros Hlen. destruct args as [|a [|b rest]]; simpl in Hlen; try lia.
  - reflexivity.
  - destruct a; reflexivity.
Qed.

(** C9: [EstimateGas] called with a nil block-number pointer panics with
    a nil dereference, before anything is built or sent; and [Pre] makes
    that call whenever the second argument is a non-nil block reference
    whose BlockNumber field is nil, a reference by hash for one. *)
Theorem EstimateGas_nil_number_panics (s : State W) (response : option Response)
    (tx : TransactionForCall) (hash : option H256) (rest : list any) :
  EstimateGas tx None s = (Panics NilDereference, s) /\
  Pre "eth_estimateGas" response
    (AnyTransactionForCall tx
       :: AnyBlockRef (Some (mkBlockNumberOrHash None hash)) :: rest) s =
    (Panics NilDereference, s).
Proof.
  split; reflexivity.
Qed.

End HookFacts.


(** ** Concrete runs *)

Lemma reconnect_needs_existing_path_witness :
  let s := Scripted.start None
             (Scripted.mkWorld [Some Scripted.no_such_file] [inl 7%nat] [] [] []) in
  os_IsNotExist (fst (os_Stat (address (rc s)) (world s))) = true /\
  exists s',
    reconnect s = (Returns (Some EndpointUnavailable), s') /\
    rc s' = rc s /\
    added s s' = [EvStat (address (rc s))] /\
    dials (added s s') = 0%nat.
Proof.
  split; [reflexivity|].
  apply reconnect_needs_existing_path. reflexivity.
Defined.

Lemma Pre_trace_mismatch_not_handled_witness :
  let s := Scripted.start None Scripted.calm in
  (List.length [AnyString "0x01"; AnyNil] <> 1%nat \/
   (exists a, [AnyString "0x01"; AnyNil] = [a] /\ is_H256 a = false)) /\
  Pre "debug_traceTransaction" None [AnyString "0x01"; AnyNil] s =
    (Returns (false, Some InvalidParams, None), s).
Proof.
  split.
  - left. simpl. lia.
  - apply (Pre_trace_mismatch_not_handled (Lib := Sample.library)). left. simpl. lia.
Defined.

(** The claim of C1 fails on a single argument that is not a hash: the
    call is reported as not handled. *)
Lemma Pre_trace_type_mismatch_flag_is_false :
  let s := Scripted.start (Some 3%nat) Scripted.calm in
  Pre (Lib := Sample.library) "debug_traceTransaction" None [AnyString "0x01"] s =
    (Returns (false, Some InvalidParams, None), s).
Proof. reflexivity. Qed.

Lemma Pre_estimateGas_short_args_witness :
  let s := Scripted.start None Scripted.calm in
  (List.length [AnyTransactionForCall (Lib := Sample.library) "{}"] < 2)%nat /\
  Pre "eth_estimateGas" None [AnyTransactionForCall (Lib := Sample.library) "{}"] s =
    (Panics (IndexOutOfRange 1 1), s).
Proof.
  split; [simpl; lia|].
  refine (Pre_estimateGas_short_args (Lib := Sample.library)
            (Scripted.start None Scripted.calm) None
            [AnyTransactionForCall (Lib := Sample.library) "{}"] _).
  simpl. lia.
Defined.

(** The claim of C8 fails on a single argument that is not a call
    transaction: [Pre] returns an InvalidParams error and does not
    panic. *)
Lemma Pre_estimateGas_one_wrong_arg_returns :
  let s := Scripted.start None Scripted.calm in
  Pre (Lib := Sample.library) "eth_estimateGas" None [AnyString "latest"] s =
    (Returns (true, Some InvalidParams, None), s).
Proof. reflexivity. Qed.

Lemma request_reconnects_on_length_write_broken_pipe_witness :
  let s := Scripted.start (Some 3%nat)
             (Scripted.mkWorld [] [inl 4%nat] [] [Some Scripted.broken_pipe] []) in
  let req := [x7b; x7d] in
  conn (rc s) = Some 3%nat /\
  length_write_broken_pipe 3%nat req s = true /\
  exists out s',
    request req s = (Returns out, s') /\
    reconnects (added s s') =
      (if length_write_broken_pipe 3%nat req s then 1 else 0)%nat /\
    (length_write_broken_pipe 3%nat req s = true ->
       fst out = None /\
       (snd out = Some EndpointUnavailable \/
        exists e, snd out = Some e /\ errors_Is e EPIPE = true) /\
       writes (added s s') = 1%nat /\ (dials (added s s') <= 1)%nat).
Proof.
  split; [reflexivity|]. split; [reflexivity|].
  apply request_reconnects_on_length_write_broken_pipe. reflexivity.
Defined.

(** The claim of C2 fails when it is the body of the frame whose write
    fails with a broken pipe: the call fails and no reconnect is
    attempted. *)
Lemma request_body_broken_pipe_no_reconnect :
  let s := Scripted.start (Some 3%nat)
             (Scripted.mkWorld [] [] [] [None; Some Scripted.broken_pipe] []) in
  let run := request [x7b; x7d] s in
  fst run = Returns (None, Some Scripted.broken_pipe) /\
  errors_Is Scripted.broken_pipe EPIPE = true /\
  added s (snd run) =
    [EvLock; EvSetDeadline 3%nat 5000000000; EvWrite 3%nat [x02; x00; x00; x00];
     EvWrite 3%nat [x7b; x7d]; EvUnlock] /\
  reconnects (added s (snd run)) = 0%nat.
Proof.
  repeat split.
Qed.

Lemma TraceTransaction_array_witness :
  let res := Sample.result_response ("[" ++ Sample.call_frame ++ "]") in
  let s := Scripted.start (Some 3%nat) (Scripted.answering res) in
  let req := match buildRequest (Lib := Sample.library) "debug_traceTransaction"
                     [PH256 "0xabc"] with
             | inl b => b
             | inr _ => []
             end in
  let s' := snd (request req s) in
  let result := bytes_of_string ("[" ++ Sample.call_frame ++ "]") in
  let elems := [(bytes_of_string Sample.call_frame, jsonparser.Object)] in
  buildRequest (Lib := Sample.library) "debug_traceTransaction" [PH256 "0xabc"]
    = inl req /\
  request req s = (Returns (Some res, None), s') /\
  Sample.Get res ["result"] = (result, jsonparser.Array, None) /\
  Sample.ArrayEach result = (elems, None) /\
  decodable (Lib := Sample.library) elems = 1%nat /\
  TraceTransaction (Lib := Sample.library) "0xabc" s =
    (Returns (Some [("type", "CALL")], None), s').
Proof.
  intros res s req s' result elems.
  assert (Hb : buildRequest (Lib := Sample.library) "debug_traceTransaction"
                 [PH256 "0xabc"] = inl req) by reflexivity.
  assert (Hr : request req s = (Returns (Some res, None), s'))
    by (vm_compute; reflexivity).
  assert (Hg : Sample.Get res ["result"] = (result, jsonparser.Array, None))
    by (vm_compute; reflexivity).
  assert (Ha : Sample.ArrayEach result = (elems, None))
    by (vm_compute; reflexivity).
  assert (Hd : decodable (Lib := Sample.library) elems = 1%nat)
    by (vm_compute; reflexivity).
  split; [exact Hb|].
  split; [exact Hr|]. split; [exact Hg|]. split; [exact Ha|]. split; [exact Hd|].
  destruct (TraceTransaction_array (Lib := Sample.library) s s' "0xabc" req res
              result elems None Hb Hr Hg Ha) as [H1 _].
  destruct (H1 Hd) as (value & ty & trace & Hin & Hv & Ht).
  rewrite Ht. destruct Hin as [Hin|[]]. injection Hin as <- <-.
  vm_compute in Hv. injection Hv as <-. reflexivity.
Defined.

(** The claim of C3 fails on an array of two elements of which one
    decodes: [TraceTransaction] succeeds with the frame of that
    element. *)
Lemma TraceTransaction_two_elements_one_decodes :
  let res := Sample.result_response ("[1," ++ Sample.call_frame ++ "]") in
  let s := Scripted.start (Some 3%nat) (Scripted.answering res) in
  Sample.Get res ["result"] =
    (bytes_of_string ("[1," ++ Sample.call_frame ++ "]"), jsonparser.Array, None) /\
  Sample.ArrayEach (bytes_of_string ("[1," ++ Sample.call_frame ++ "]")) =
    ([(bytes_of_string "1", jsonparser.Number);
      (bytes_of_string Sample.call_frame, jsonparser.Object)], None) /\
  fst (TraceTransaction (Lib := Sample.library) "0xabc" s) =
    Returns (Some [("type", "CALL")], None).
Proof.
  repeat split; vm_compute; reflexivity.
Qed.



Lemma parseEstimateGasResponse_decimal_witness :
  decimal_value "21000" = Some 21000 /\
  21000 < 2 ^ 63 /\
  Sample.Get (Sample.result_response "21000") ["result"] =
    (bytes_of_string "21000", jsonparser.Number, None) /\
  Sample.UnmarshalJSON (bytes_of_string (Sprintf_0x_x 21000)) 0 = (21000, None) /\
  parseEstimateGasResponse (Lib := Sample.library) (Sample.result_response "21000") =
    (Some 21000, None).
Proof.
  assert (Hd : decimal_value "21000" = Some 21000) by reflexivity.
  assert (Hv : 21000 < 2 ^ 63) by reflexivity.
  split; [exact Hd|]. split; [exact Hv|].
  split; [vm_compute; reflexivity|].
  destruct (parseEstimateGasResponse_decimal "21000" 21000 Hd Hv) as (_ & Hh & Hp).
  split; [exact Hh|exact Hp].
Defined.

(** The claim of C5 fails at 2^63, which the result type holds and an
    [int64] does not: the hexadecimal numeral decodes, the decimal result
    is refused. *)
Lemma parseEstimateGasResponse_refuses_2_63 :
  decimal_value "9223372036854775808" = Some (2 ^ 63) /\
  2 ^ 63 < 2 ^ 256 /\
  Sample.UnmarshalJSON (bytes_of_string "0x8000000000000000") 0 = (2 ^ 63, None) /\
  parseEstimateGasResponse (Lib := Sample.library)
    (Sample.result_response "9223372036854775808") =
    (None, Some (Wrapf "failed to parse result as integer"
                   (NumError "ParseInt" "9223372036854775808" ErrRange))).
Proof.
  repeat split; vm_compute; reflexivity.
Qed.

(** The claim of C6 fails on its numeral: the numeral derived from
    6712759 is not 0x6691b7, which stands for 6721975. *)
Lemma numeral_0x6691b7_is_another_number :
  Sprintf_0x_x 6712759 <> "0x6691b7" /\
  Sample.UnmarshalJSON (bytes_of_string "0x6691b7") 0 = (6721975, None) /\
  parseEstimateGasResponse (Lib := Sample.library) (Sample.result_response "6712759") <>
    (Some 6721975, None).
Proof.
  repeat split; vm_compute; discriminate.
Qed.

(** ** Several callers *)

(** C7: two callers enter [request] on a client that is not yet
    connected.  Both pass the test [rc.conn == nil], which is made before
    the mutex is taken, and both dial: two sockets are open at once.  The
    second assignment to [rc.conn] falls between the first caller's write
    of its length and the write of its body, so socket 0 receives a
    length without a body, and socket 1 a body without a length, followed
    by the whole frame of the second caller. *)
Theorem two_callers_open_two_sockets :
  let schedule := [0; 1; 0; 0; 0; 1; 1; 0; 0; 0; 1; 0; 0; 0; 0; 1; 1; 1; 1; 1; 1; 1]%nat in
  let s := Concurrent.run schedule (Concurrent.fresh 2) in
  Concurrent.opened (Concurrent.run (firstn 7 schedule) (Concurrent.fresh 2)) = 2%nat /\
  Concurrent.opened s = 2%nat /\
  Concurrent.received 0%nat s = [Concurrent.LengthOf 0%nat] /\
  Concurrent.received 1%nat s =
    [Concurrent.BodyOf 0%nat; Concurrent.LengthOf 1%nat; Concurrent.BodyOf 1%nat] /\
  Concurrent.callers s = [Concurrent.Returned; Concurrent.Returned].
Proof.
  repeat split.
Qed.

Module ConcurrentFacts.
Import Concurrent.

Lemma nth_error_set_pc (l : list pc) (t t' : nat) (p : pc) :
  (t < List.length l)%nat ->
  nth_error (set_pc t p l) t' = if Nat.eqb t' t then Some p else nth_error l t'.
Proof.
  intros Ht. unfold set_pc.
  assert (Hf : List.length (firstn t l) = t) by (rewrite length_firstn; lia).
  destruct (Nat.eqb_spec t' t) as [->|Hne].
  - rewrite nth_error_app2 by lia. rewrite Hf, Nat.sub_diag. reflexivity.
  - destruct (Nat.lt_ge_cases t' t) as [Hlt|Hge].
    + rewrite nth_error_app1 by lia. rewrite nth_error_firstn.
      destruct (Nat.ltb_spec t' t); [reflexivity|lia].
    + rewrite nth_error_app2 by lia. rewrite Hf.
      destruct (t' - t)%nat as [|k] eqn:E; [lia|]. cbn [nth_error].
      rewrite nth_error_skipn. f_equal. lia.
Qed.

Lemma pending_other (s : Shared) (t : nat) (p q : pc) (w : list (Conn * part))
    (c : option Conn) (o : nat) :
  nth_error (callers s) t = Some p ->
  p <> AtWriteBody -> q <> AtWriteBody ->
  pending (mkShared c (lock s) o w (set_pc t q (callers s))) = pending s.
Proof.
  intros Hp Hnp Hnq. unfold pending; simpl.
  destruct (lock s) as [h|]; [|reflexivity].
  rewrite nth_error_set_pc by (apply nth_error_Some; congruence).
  destruct (Nat.eqb_spec h t) as [->|_]; [|reflexivity].
  rewrite Hp. destruct p, q; congruence.
Qed.

(** The invariant is kept by every statement of every caller. *)
Lemma step_keeps_Inv (t : nat) (s s' : Shared) :
  Inv s -> step t s = Some s' -> Inv s'.
Proof.
  intros [Hc Ho Hs Hl [done Hw]]. unfold step.
  destruct (nth_error (callers s) t) as [p|] eqn:Hp; [|discriminate].
  assert (Ht : (t < List.length (callers s))%nat)
    by (apply nth_error_Some; congruence).
  pose proof (Hs t p Hp) as Hsp.
  assert (Hothers : forall q t' p',
             (in_exchange q = true -> lock s = Some t) ->
             nth_error (set_pc t q (callers s)) t' = Some p' ->
             in_exchange p' = true -> lock s = Some t').
  { intros q t' p' Hq. rewrite nth_error_set_pc by exact Ht.
    destruct (Nat.eqb_spec t' t) as [->|_].
    - intros [= <-]. exact Hq.
    - apply Hl. }
  assert (Hsteady : forall q t' p',
             steady q -> nth_error (set_pc t q (callers s)) t' = Some p' -> steady p').
  { intros q t' p' Hq. rewrite nth_error_set_pc by exact Ht.
    destruct (Nat.eqb_spec t' t) as [->|_]; [intros [= <-]; exact Hq|apply Hs]. }
  destruct p; simpl in Hsp; try contradiction; unfold on_conn, move; rewrite ?Hc.
  - (* AtNilTest *)
    intros [= <-]. split; simpl; try assumption; try reflexivity.
    + intros t' p'. apply Hsteady. exact I.
    + intros t' p'. apply Hothers. discriminate.
    + exists done. rewrite (pending_other s t AtNilTest AtLock) by congruence.
      exact Hw.
  - (* AtLock *)
    destruct (lock s) as [h|] eqn:Hlock; [discriminate|]. intros [= <-].
    split; simpl; try assumption; try reflexivity.
    + intros t' p'. apply Hsteady. exact I.
    + intros t' p'. rewrite nth_error_set_pc by exact Ht.
      destruct (Nat.eqb_spec t' t) as [->|_]; [reflexivity|].
      intros Hp' He. specialize (Hl t' p' Hp' He). congruence.
    + exists done. rewrite Hw. f_equal. unfold pending; simpl. rewrite Hlock.
      rewrite nth_error_set_pc, Nat.eqb_refl by exact Ht. reflexivity.
  - (* AtSetDeadline *)
    pose proof (Hl t _ Hp eq_refl) as Hlock.
    intros [= <-]. split; simpl; try assumption; try reflexivity.
    + intros t' p'. apply Hsteady. exact I.
    + intros t' p'. apply Hothers. intros _. exact Hlock.
    + exists done.
      rewrite (pending_other s t AtSetDeadline AtWriteLength) by congruence.
      exact Hw.
  - (* AtWriteLength *)
    pose proof (Hl t _ Hp eq_refl) as Hlock.
    intros [= <-]. split; simpl; try assumption; try reflexivity.
    + intros t' p'. apply Hsteady. exact I.
    + intros t' p'. apply Hothers. intros _. exact Hlock.
    + exists done. rewrite Hw. unfold pending; simpl. rewrite Hlock, Hp.
      rewrite nth_error_set_pc, Nat.eqb_refl by exact Ht.
      rewrite app_nil_r. reflexivity.
  - (* AtWriteBody *)
    pose proof (Hl t _ Hp eq_refl) as Hlock.
    intros [= <-]. split; simpl; try assumption; try reflexivity.
    + intros t' p'. apply Hsteady. exact I.
    + intros t' p'. apply Hothers. intros _. exact Hlock.
    + exists (done ++ [t])%list. rewrite Hw. unfold pending; simpl.
      rewrite Hlock, Hp. rewrite nth_error_set_pc, Nat.eqb_refl by exact Ht.
      rewrite map_app, concat_app. simpl. rewrite <- !app_assoc. reflexivity.
  - (* AtReadLength *)
    pose proof (Hl t _ Hp eq_refl) as Hlock.
    intros [= <-]. split; simpl; try assumption; try reflexivity.
    + intros t' p'. apply Hsteady. exact I.
    + intros t' p'. apply Hothers. intros _. exact Hlock.
    + exists done.
      rewrite (pending_other s t AtReadLength AtReadBody) by congruence.
      exact Hw.
  - (* AtReadBody *)
    pose proof (Hl t _ Hp eq_refl) as Hlock.
    intros [= <-]. split; simpl; try assumption; try reflexivity.
    + intros t' p'. apply Hsteady. exact I.
    + intros t' p'. apply Hothers. intros _. exact Hlock.
    + exists done.
      rewrite (pending_other s t AtReadBody AtUnlock) by congruence.
      exact Hw.
  - (* AtUnlock *)
    pose proof (Hl t _ Hp eq_refl) as Hlock.
    intros [= <-]. split; simpl; try assumption; try reflexivity.
    + intros t' p'. apply Hsteady. exact I.
    + intros t' p'. rewrite nth_error_set_pc by exact Ht.
      destruct (Nat.eqb_spec t' t) as [->|Hne]; [intros [= <-]; discriminate|].
      intros Hp' He. specialize (Hl t' p' Hp' He). congruence.
    + exists done. rewrite Hw. f_equal. unfold pending; simpl.
      rewrite Hlock, Hp. reflexivity.
  - (* Returned *) discriminate.
Qed.

Lemma run_keeps_Inv (schedule : list nat) :
  forall s, Inv s -> Inv (run schedule s).
Proof.
  induction schedule as [|t rest IH]; simpl; intros s H; [exact H|].
  apply IH. destruct (step t s) as [s'|] eqn:E; [|exact H].
  exact (step_keeps_Inv t s s' H E).
Qed.

Lemma connected_Inv (n : nat) : Inv (connected n).
Proof.
  split; simpl; try reflexivity.
  - intros t p H. apply nth_error_In, repeat_spec in H. subst p. exact I.
  - intros t p H. apply nth_error_In, repeat_spec in H. subst p. discriminate.
  - exists []. reflexivity.
Qed.

(** X21: Once the client is connected, any number of callers in any order
    open no further socket, at most one of them is between [Lock] and
    [Unlock], and the socket receives whole frames one after the other,
    the last one possibly still without its body. *)
Lemma connected_callers_are_serialised (n : nat) (schedule : list nat) :
  let s := run schedule (connected n) in
  opened s = 1%nat /\
  (forall t t' p p',
      nth_error (callers s) t = Some p -> in_exchange p = true ->
      nth_error (callers s) t' = Some p' -> in_exchange p' = true -> t = t') /\
  exists done, wire s = (List.concat (map frame done) ++ pending s)%list.
Proof.
  destruct (run_keeps_Inv schedule _ (connected_Inv n)) as [Hc Ho Hs Hl Hw].
  repeat split; [exact Ho| |exact Hw].
  intros t t' p p' Hp He Hp' He'.
  pose proof (Hl t p Hp He) as H1. pose proof (Hl t' p' Hp' He') as H2.
  congruence.
Qed.
End ConcurrentFacts.

(** * Further properties of the client and of the hook *)

(** ** The length prefix *)

Lemma Z_of_byte_of_Z (z : Z) : Z_of_byte (byte_of_Z z) = z mod 256.
Proof.
  unfold Z_of_byte, byte_of_Z.
  pose proof (Z.mod_pos_bound z 256 ltac:(lia)) as Hb.
  destruct (Byte.of_N (Z.to_N (z mod 256))) as [b|] eqn:E.
  - apply Byte.to_of_N in E. rewrite E. apply Z2N.id. lia.
  - apply Byte.of_N_None_iff in E. lia.
Qed.

Lemma Z_of_byte_range (b : byte) : 0 <= Z_of_byte b < 256.
Proof.
  unfold Z_of_byte. pose proof (Byte.to_N_bounded b). lia.
Qed.

Lemma lor_above (a b n : Z) :
  0 <= a < 2 ^ n -> 0 <= n -> Z.lor a (b * 2 ^ n) = a + b * 2 ^ n.
Proof.
  intros Ha Hn.
  assert (H0 : Z.land a (b * 2 ^ n) = 0).
  { apply Z.bits_inj'. intros k Hk. rewrite Z.land_spec, Z.bits_0.
    destruct (Z.lt_ge_cases k n).
    - rewrite Z.mul_pow2_bits_low by lia. apply andb_false_r.
    - destruct (Z.eq_dec a 0) as [->|Hne]; [rewrite Z.bits_0; reflexivity|].
      rewrite (Z.bits_above_log2 a k); [reflexivity|lia|].
      apply Z.log2_lt_pow2; [lia|].
      eapply Z.lt_le_trans; [apply Ha|apply Z.pow_le_mono_r; lia]. }
  rewrite <- Z.lxor_lor by exact H0. symmetry. apply Z.add_nocarry_lxor. exact H0.
Qed.

(** Four bytes put together the little-endian way. *)
Lemma Uint32_sum (b0 b1 b2 b3 : byte) :
  Uint32 [b0; b1; b2; b3] =
    Z_of_byte b0 + 256 * Z_of_byte b1 + 65536 * Z_of_byte b2
      + 16777216 * Z_of_byte b3.
Proof.
  unfold Uint32.
  pose proof (Z_of_byte_range b0). pose proof (Z_of_byte_range b1).
  pose proof (Z_of_byte_range b2). pose proof (Z_of_byte_range b3).
  rewrite !Z.shiftl_mul_pow2 by lia.
  rewrite (lor_above (Z_of_byte b2 * 2 ^ 16) (Z_of_byte b3) 24) by lia.
  replace (Z_of_byte b2 * 2 ^ 16 + Z_of_byte b3 * 2 ^ 24)
    with ((Z_of_byte b2 + Z_of_byte b3 * 2 ^ 8) * 2 ^ 16) by lia.
  rewrite (lor_above (Z_of_byte b1 * 2 ^ 8) _ 16) by lia.
  replace (Z_of_byte b1 * 2 ^ 8 + (Z_of_byte b2 + Z_of_byte b3 * 2 ^ 8) * 2 ^ 16)
    with ((Z_of_byte b1 + Z_of_byte b2 * 2 ^ 8 + Z_of_byte b3 * 2 ^ 16) * 2 ^ 8) by lia.
  rewrite (lor_above (Z_of_byte b0) _ 8) by lia. lia.
Qed.

(** X1: The length header of a request, read back by the peer the way
    [request] reads the header of the response, is the length of the
    request modulo 2^32: the length itself for a request below 4 GiB, and
    a header that announces too little from there on. *)
Theorem length_prefix_round_trip (req : bytes) :
  List.length (PutUint32 (uint32 (len req))) = 4%nat /\
  Uint32 (PutUint32 (uint32 (len req))) = len req mod 2 ^ 32 /\
  (len req < 2 ^ 32 -> Uint32 (PutUint32 (uint32 (len req))) = len req).
Proof.
  assert (H : Uint32 (PutUint32 (uint32 (len req))) = len req mod 2 ^ 32).
  { unfold PutUint32, uint32. set (v := len req mod 2 ^ 32).
    assert (Hv : 0 <= v < 2 ^ 32) by (apply Z.mod_pos_bound; lia).
    clearbody v.
    rewrite Uint32_sum, !Z_of_byte_of_Z, !Z.shiftr_div_pow2 by lia.
    change (2 ^ 8) with 256. change (2 ^ 16) with 65536.
    change (2 ^ 24) with 16777216. change (2 ^ 32) with 4294967296 in Hv.
    pose proof (Z.div_mod v 256 ltac:(lia)).
    pose proof (Z.div_mod (v / 256) 256 ltac:(lia)).
    pose proof (Z.div_mod (v / 65536) 256 ltac:(lia)).
    pose proof (Z.div_mod (v / 16777216) 256 ltac:(lia)).
    assert (v / 65536 = v / 256 / 256) by (rewrite Z.div_div by lia; reflexivity).
    assert (v / 16777216 = v / 65536 / 256) by (rewrite Z.div_div by lia; reflexivity).
    assert (v / 16777216 < 256) by (apply Z.div_lt_upper_bound; lia).
    assert (0 <= v / 16777216) by (apply Z.div_pos; lia).
    rewrite (Z.mod_small (v / 16777216)) by lia.
    generalize dependent (v / 16777216). generalize dependent (v / 65536).
    generalize dependent (v / 256 / 256). generalize dependent (v / 256).
    intros. lia. }
  split; [reflexivity|]. split; [exact H|].
  intros Hlt. rewrite H. apply Z.mod_small.
  split; [apply Nat2Z.is_nonneg|exact Hlt].
Qed.

(** ** Every run of the exchange *)

Section RunFacts.

Context {W : Type} {Sys : System W}.

Ltac step c Hc :=
  repeat first
    [ rewrite bind_get_rc
    | rewrite (bind_the_conn _ _ c) by exact Hc
    | rewrite bind_call
    | rewrite bind_ret ];
  cbn [rc world log fst snd].

(** What a run of [reconnect] leaves behind: calls of [os.Stat] and
    [net.Dial] only, and a client that is either untouched or holds the
    socket just dialled. *)
Lemma reconnect_facts (s : State W) :
  exists o s' l,
    reconnect s = (Returns o, s') /\ log s' = (log s ++ l)%list /\
    forallb is_connect l = true /\
    reconnects l = 1%nat /\ (dials l <= 1)%nat /\
    ((o = Some EndpointUnavailable /\ rc s' = rc s) \/
     (exists c', o = None /\ rc s' = set_conn (rc s) (Some c') /\ dials l = 1%nat)).
Proof.
  pose proof (reconnect_run s) as Hrun. cbv zeta in Hrun.
  destruct (os_Stat (address (rc s)) (world s)) as [err w1].
  destruct (os_IsNotExist err).
  - do 3 eexists. split; [exact Hrun|]. simpl. repeat split; auto.
  - destruct (net_Dial (network (rc s)) (address (rc s)) w1) as [[c'|e] w2];
      do 3 eexists; (split; [exact Hrun|]); simpl; repeat split; eauto.
Qed.

Lemma only_on_app (c : Conn) (l1 l2 : list Event) :
  only_on c (l1 ++ l2) = only_on c l1 && only_on c l2.
Proof. apply forallb_app. Qed.

Lemma connect_only_on (c : Conn) (l : list Event) :
  forallb is_connect l = true -> only_on c l = true.
Proof.
  unfold only_on. induction l as [|e l IH]; simpl; [reflexivity|].
  destruct e; simpl; try discriminate; exact IH.
Qed.

Lemma connect_no_mutex (l : list Event) :
  forallb is_connect l = true ->
  forallb (fun e => negb (is_lock e || is_unlock e)) l = true.
Proof.
  induction l as [|e l IH]; simpl; [reflexivity|].
  destruct e; simpl; try discriminate; exact IH.
Qed.

Lemma connect_no_writes (l : list Event) :
  forallb is_connect l = true -> writes l = 0%nat.
Proof.
  unfold writes. induction l as [|e l IH]; [reflexivity|].
  rewrite count_cons. destruct e; simpl; try discriminate; exact IH.
Qed.

Ltac leaf c :=
  do 3 eexists; split; [reflexivity|];
  split;
  [ cbn [log]; rewrite <- ?app_assoc; cbn [app]; reflexivity
  | match goal with
    | |- exists mid, ?l = _ /\ _ => exists (removelast (List.tl l))
    end; split; reflexivity
  | match goal with
    | |- exists rest, ?l = _ => exists (List.tl (List.tl l))
    end; reflexivity
  | cbn [only_on forallb socket_of]; rewrite ?Nat.eqb_refl; reflexivity
  | unfold reconnects; rewrite ?count_cons, ?count_nil; simpl; lia
  | unfold reconnects, dials; rewrite ?count_cons, ?count_nil; simpl; lia
  | unfold writes; rewrite ?count_cons, ?count_nil; simpl; lia
  | left; reflexivity ].

Lemma exchange_runs (s : State W) (c : Conn) (req : bytes) :
  conn (rc s) = Some c ->
  exists out s' l,
    with_lock (exchange req) s = (Returns out, s') /\ exchange_facts s s' c l.
Proof.
  intros Hc. unfold with_lock, emit, exchange. step c Hc.
  destruct (conn_SetDeadline c (timeout (rc s)) (world s)) as [[e|] w1];
    cbn [fst snd]; [unfold ret; leaf c|].
  step c Hc.
  destruct (conn_Write c (PutUint32 (uint32 (len req))) w1) as [[e|] w2];
    cbn [fst snd].
  - destruct (errors_Is e EPIPE); [|unfold ret; leaf c].
    unfold bind at 1.
    match goal with
    | |- context [reconnect ?st] =>
        destruct (reconnect_facts st) as (o & s' & l & Hr & Hl & Hcn & Hn & Hd & Ho);
        rewrite Hr
    end.
    cbn [log rc] in Hl, Ho.
    exists (match o with Some e' => (None, Some e') | None => (None, Some e) end).
    exists (mkState (world s') (rc s') (log s' ++ [EvUnlock])).
    exists ([EvLock; EvSetDeadline c (timeout (rc s));
             EvWrite c (PutUint32 (uint32 (len req)))] ++ l ++ [EvUnlock])%list.
    split; [destruct o; reflexivity|].
    split.
    + cbn [log]. rewrite Hl, <- !app_assoc. reflexivity.
    + exists ([EvSetDeadline c (timeout (rc s));
               EvWrite c (PutUint32 (uint32 (len req)))] ++ l)%list.
      split; [reflexivity|].
      cbn [app forallb is_lock is_unlock orb negb andb].
      apply connect_no_mutex. exact Hcn.
    + eexists. reflexivity.
    + rewrite !only_on_app, (connect_only_on c l Hcn).
      cbn [only_on forallb socket_of]. rewrite ?Nat.eqb_refl. reflexivity.
    + unfold reconnects in *. rewrite !count_app, Hn, !count_cons, !count_nil.
      simpl. lia.
    + unfold reconnects, dials in *.
      rewrite !count_app, Hn, !count_cons, !count_nil. simpl. lia.
    + pose proof (connect_no_writes l Hcn) as Hw. unfold writes in *.
      rewrite !count_app, Hw, !count_cons, !count_nil. simpl. lia.
    + cbn [rc]. destruct Ho as [[_ Hrc]|(c' & _ & Hrc & Hd1)]; [left; exact Hrc|].
      right. exists c'. split; [exact Hrc|]. unfold dials in *.
      rewrite !count_app, Hd1, !count_cons, !count_nil. simpl. lia.
  - step c Hc.
    destruct (conn_Write c req w2) as [[e|] w3]; cbn [fst snd];
      [unfold ret; leaf c|].
    step c Hc.
    destruct (io_ReadFull c 4 w3) as [[lb [e|]] w4]; cbn [fst snd];
      [unfold ret; leaf c|].
    step c Hc. unfold ret. leaf c.
Qed.

End RunFacts.

(** ** What a call of [request] does and does not do *)

Section RequestFacts.

Context {W : Type} {Sys : System W}.

Ltac step c Hc :=
  repeat first
    [ rewrite bind_get_rc
    | rewrite (bind_the_conn _ _ c) by exact Hc
    | rewrite bind_call
    | rewrite bind_ret ];
  cbn [rc world log fst snd].

Lemma added_of_log (s s' : State W) (l : list Event) :
  log s' = (log s ++ l)%list -> added s s' = l.
Proof.
  intros H. unfold added. rewrite H, skipn_app, skipn_all, Nat.sub_diag.
  reflexivity.
Qed.

(** [request] on a client that holds a connection. *)
Lemma request_connected (s : State W) (c : Conn) (req : bytes) :
  conn (rc s) = Some c ->
  exists out s' l,
    request req s = (Returns out, s') /\ exchange_facts s s' c l.
Proof.
  intros Hc. unfold request. rewrite bind_get_rc, Hc, bind_ret.
  apply exchange_runs. exact Hc.
Qed.

(** [request] on a client that holds no connection: the connect attempt
    fails and nothing else is done, or it gives a socket and the
    exchange runs on it. *)
Lemma request_unconnected (s : State W) (req : bytes) :
  conn (rc s) = None ->
  exists o s1 pre,
    reconnect s = (Returns o, s1) /\ log s1 = (log s ++ pre)%list /\
    forallb is_connect pre = true /\ reconnects pre = 1%nat /\
    (dials pre <= 1)%nat /\
    ((o = Some EndpointUnavailable /\ rc s1 = rc s /\
      request req s = (Returns (None, Some EndpointUnavailable), s1)) \/
     (exists c out s' l,
         o = None /\ rc s1 = set_conn (rc s) (Some c) /\ dials pre = 1%nat /\
         request req s = (Returns out, s') /\ exchange_facts s1 s' c l)).
Proof.
  intros Hc.
  destruct (reconnect_facts s) as (o & s1 & pre & Hr & Hl & Hcn & Hn & Hd & Ho).
  exists o, s1, pre. repeat (split; [assumption|]).
  assert (Hreq : request req s =
                 match o with
                 | Some e => (Returns (None, Some e), s1)
                 | None => with_lock (exchange req) s1
                 end).
  { unfold request. rewrite bind_get_rc, Hc. unfold bind at 1. rewrite Hr.
    destruct o; reflexivity. }
  rewrite Hreq.
  destruct Ho as [[-> Hrc]|(c & -> & Hrc & Hd1)].
  - left. split; [reflexivity|]. split; [exact Hrc|reflexivity].
  - right.
    assert (Hc1 : conn (rc s1) = Some c) by (rewrite Hrc; reflexivity).
    destruct (exchange_runs s1 c req Hc1) as (out & s' & l & Hx & Hf).
    exists c, out, s', l. split; [reflexivity|]. split; [exact Hrc|].
    split; [exact Hd1|]. split; [exact Hx|exact Hf].
Qed.

Lemma connect_off_socket (l : list Event) :
  forallb is_connect l = true -> off_socket l = true.
Proof.
  unfold off_socket. induction l as [|e l IH]; simpl; [reflexivity|].
  destruct e; simpl; try discriminate; exact IH.
Qed.

Lemma added_trans (s s1 s' : State W) (pre l : list Event) :
  log s1 = (log s ++ pre)%list -> log s' = (log s1 ++ l)%list ->
  added s s' = (pre ++ l)%list.
Proof.
  intros H1 H2. apply added_of_log. rewrite H2, H1, app_assoc. reflexivity.
Qed.

(** X2: The mutex.  A call on a client that holds a connection takes the
    mutex first and releases it last, with no other use of it in
    between.  A call on a client without a connection makes the connect
    attempt first, outside the mutex: when the attempt fails the call
    does nothing more and the mutex is not taken at all; when it gives a
    connection the call goes on as above, from [Lock] to [Unlock]. *)
Theorem request_mutex_discipline (s : State W) (req : bytes) :
  exists out s',
    request req s = (Returns out, s') /\
    match conn (rc s) with
    | Some _ =>
        exists mid,
          added s s' = (EvLock :: mid ++ [EvUnlock])%list /\
          forallb (fun e => negb (is_lock e || is_unlock e)) mid = true
    | None =>
        let pre := added s (snd (reconnect s)) in
        forallb is_connect pre = true /\
        match fst (reconnect s) with
        | Returns None =>
            exists mid,
              added s s' = (pre ++ EvLock :: mid ++ [EvUnlock])%list /\
              forallb (fun e => negb (is_lock e || is_unlock e)) mid = true
        | _ => added s s' = pre
        end
    end.
Proof.
  destruct (conn (rc s)) as [c|] eqn:Hc.
  - destruct (request_connected s c req Hc) as (out & s' & l & Hr & Hf).
    destruct Hf as [Hlog (mid & -> & Hmid) _ _ _ _ _ _].
    exists out, s'. split; [exact Hr|]. exists mid.
    split; [apply added_of_log; exact Hlog|exact Hmid].
  - destruct (request_unconnected s req Hc)
      as (o & s1 & pre & Hr & Hl & Hcn & Hn & Hd & Hcase).
    cbv zeta. rewrite Hr. cbn [fst snd]. rewrite (added_of_log s s1 pre Hl).
    destruct Hcase as [(-> & Hrc & Hreq)|(c & out & s' & l & -> & Hrc & Hd1 & Hreq & Hf)].
    + exists (None, Some EndpointUnavailable), s1.
      split; [exact Hreq|]. split; [exact Hcn|].
      apply added_of_log. exact Hl.
    + destruct Hf as [Hlog (mid & -> & Hmid) _ _ _ _ _ _].
      exists out, s'. split; [exact Hreq|]. split; [exact Hcn|]. exists mid.
      split; [apply (added_trans s s1 s' _ _ Hl Hlog)|exact Hmid].
Qed.

(** X3: A client without a connection whose connect attempt fails: the call
    returns the EndpointUnavailable error, has done nothing but that
    attempt (no call on a socket, no use of the mutex) and leaves the
    client as it was, still without a connection. *)
Theorem request_connect_failure (s : State W) (req : bytes) (e : error) :
  conn (rc s) = None ->
  fst (reconnect s) = Returns (Some e) ->
  exists s',
    request req s = (Returns (None, Some EndpointUnavailable), s') /\
    rc s' = rc s /\
    off_socket (added s s') = true /\
    (reconnects (added s s') = 1)%nat.
Proof.
  intros Hc He.
  destruct (request_unconnected s req Hc)
    as (o & s1 & pre & Hr & Hl & Hcn & Hn & Hd & Hcase).
  rewrite Hr in He. cbn [fst] in He. injection He as ->.
  destruct Hcase as [(_ & Hrc & Hreq)|(c & out & s' & l & Ho & _)];
    [|discriminate].
  exists s1. rewrite (added_of_log s s1 pre Hl).
  split; [exact Hreq|]. split; [exact Hrc|].
  split; [apply connect_off_socket; exact Hcn|exact Hn].
Qed.

(** X4: On a client that holds the connection [c], every call [request]
    makes on a socket is made on [c]: the socket dialled after a broken
    pipe is not used by the call that dialled it. *)
Theorem request_only_on_connection (s : State W) (c : Conn) (req : bytes) :
  conn (rc s) = Some c ->
  exists out s',
    request req s = (Returns out, s') /\ only_on c (added s s') = true.
Proof.
  intros Hc.
  destruct (request_connected s c req Hc) as (out & s' & l & Hr & Hf).
  exists out, s'. split; [exact Hr|].
  rewrite (added_of_log s s' l (xf_log _ _ _ _ Hf)). exact (xf_socket _ _ _ _ Hf).
Qed.

(** X5: How much a single call does: at most two connect attempts (one
    before the lock when there is no connection, one after a broken
    pipe), at most one of them when the client holds a connection, never
    more dials than attempts, and at most two writes. *)
Theorem request_bounds (s : State W) (req : bytes) :
  exists out s',
    request req s = (Returns out, s') /\
    (reconnects (added s s') <= 2)%nat /\
    (dials (added s s') <= reconnects (added s s'))%nat /\
    (writes (added s s') <= 2)%nat /\
    (conn (rc s) <> None -> (reconnects (added s s') <= 1)%nat).
Proof.
  destruct (conn (rc s)) as [c|] eqn:Hc.
  - destruct (request_connected s c req Hc) as (out & s' & l & Hr & Hf).
    destruct Hf as [Hlog _ _ _ Hn Hd Hw _].
    exists out, s'. rewrite (added_of_log s s' l Hlog).
    split; [exact Hr|]. repeat split; try assumption; lia.
  - destruct (request_unconnected s req Hc)
      as (o & s1 & pre & Hr & Hl & Hcn & Hn & Hd & Hcase).
    destruct Hcase as [(-> & Hrc & Hreq)|(c & out & s' & l & -> & Hrc & Hd1 & Hreq & Hf)].
    + exists (None, Some EndpointUnavailable), s1.
      rewrite (added_of_log s s1 pre Hl). split; [exact Hreq|].
      rewrite (connect_no_writes pre Hcn). repeat split; try lia; try congruence.
    + destruct Hf as [Hlog _ _ _ Hn' Hd' Hw' _].
      exists out, s'. rewrite (added_trans s s1 s' pre l Hl Hlog).
      split; [exact Hreq|].
      pose proof (connect_no_writes pre Hcn) as Hw.
      unfold reconnects, dials, writes in *. rewrite !count_app.
      repeat split; try lia; try congruence.
Qed.

(** X6: What a call does to the client struct: the network, the address and
    the timeout stay; a connection, once there, is never taken away
    again (not after a failed write or read, a broken pipe or a failed
    reconnect); and the connection changes only when a dial was made. *)
Theorem request_keeps_client (s : State W) (req : bytes) :
  exists out s',
    request req s = (Returns out, s') /\
    network (rc s') = network (rc s) /\
    address (rc s') = address (rc s) /\
    timeout (rc s') = timeout (rc s) /\
    (conn (rc s) <> None -> conn (rc s') <> None) /\
    (conn (rc s') <> conn (rc s) -> (1 <= dials (added s s'))%nat).
Proof.
  assert (Hstep : forall (a b : State W) l,
             rc b = rc a \/
             (exists c', rc b = set_conn (rc a) (Some c') /\ dials l = 1%nat) ->
             network (rc b) = network (rc a) /\ address (rc b) = address (rc a) /\
             timeout (rc b) = timeout (rc a) /\
             (conn (rc a) <> None -> conn (rc b) <> None) /\
             (conn (rc b) <> conn (rc a) -> (1 <= dials l)%nat)).
  { intros a b l [->|(c' & -> & Hd)]; repeat split; auto; try contradiction.
    - simpl. discriminate.
    - lia. }
  destruct (conn (rc s)) as [c|] eqn:Hc.
  - destruct (request_connected s c req Hc) as (out & s' & l & Hr & Hf).
    destruct Hf as [Hlog _ _ _ _ _ _ Hcl].
    exists out, s'. rewrite (added_of_log s s' l Hlog). split; [exact Hr|].
    rewrite <- Hc. apply Hstep. exact Hcl.
  - destruct (request_unconnected s req Hc)
      as (o & s1 & pre & Hr & Hl & Hcn & Hn & Hd & Hcase).
    destruct Hcase as [(-> & Hrc & Hreq)|(c & out & s' & l & -> & Hrc & Hd1 & Hreq & Hf)].
    + exists (None, Some EndpointUnavailable), s1. split; [exact Hreq|].
      rewrite Hrc, Hc. repeat split; congruence.
    + destruct Hf as [Hlog _ _ _ _ _ _ Hcl].
      exists out, s'. rewrite (added_trans s s1 s' pre l Hl Hlog).
      split; [exact Hreq|].
      destruct (Hstep s1 s' l Hcl) as (H1 & H2 & H3 & H4 & H5).
      rewrite H1, H2, H3, Hrc. cbn [network address timeout set_conn].
      repeat split; try congruence.
      intros _. unfold dials in *. rewrite count_app. lia.
Qed.

End RequestFacts.

(** ** The frame that comes back *)

Section ResponseFacts.

Context {W : Type} {Sys : System W}.

Ltac step c Hc :=
  repeat first
    [ rewrite bind_get_rc
    | rewrite (bind_the_conn _ _ c) by exact Hc
    | rewrite bind_call
    | rewrite bind_ret ];
  cbn [rc world log fst snd].

Lemma Uint32_range (b : bytes) : 0 <= Uint32 b < 2 ^ 32.
Proof.
  change (2 ^ 32) with 4294967296.
  destruct b as [|b0 [|b1 [|b2 [|b3 [|b4 r]]]]]; try (simpl; lia).
  rewrite Uint32_sum.
  pose proof (Z_of_byte_range b0). pose proof (Z_of_byte_range b1).
  pose proof (Z_of_byte_range b2). pose proof (Z_of_byte_range b3). lia.
Qed.

Lemma fill_length (l : Z) (got : bytes) : List.length (fill l got) = Z.to_nat l.
Proof.
  unfold fill. rewrite length_firstn, length_app, repeat_length. lia.
Qed.

Lemma fill_prefix (l : Z) (got : bytes) :
  firstn (List.length got) (fill l got) = firstn (Z.to_nat l) got.
Proof.
  unfold fill. rewrite firstn_firstn.
  destruct (Nat.le_gt_cases (List.length got) (Z.to_nat l)) as [Hle|Hgt].
  - rewrite Nat.min_l by exact Hle. rewrite firstn_app, Nat.sub_diag, firstn_all.
    cbn [firstn]. rewrite app_nil_r. symmetry. apply firstn_all2. exact Hle.
  - rewrite Nat.min_r by lia. rewrite firstn_app.
    replace (Z.to_nat l - List.length got)%nat with 0%nat by lia.
    cbn [firstn]. apply app_nil_r.
Qed.

Lemma firstn_repeat_le {A : Type} (x : A) (k n : nat) :
  (k <= n)%nat -> firstn k (repeat x n) = repeat x k.
Proof.
  revert n. induction k as [|k IH]; intros n H; [reflexivity|].
  destruct n as [|n]; [lia|]. simpl. rewrite IH by lia. reflexivity.
Qed.

Lemma fill_padding (l : Z) (got : bytes) :
  skipn (List.length got) (fill l got) =
    repeat x00 (Z.to_nat l - List.length got).
Proof.
  unfold fill.
  destruct (Nat.le_gt_cases (List.length got) (Z.to_nat l)) as [Hle|Hgt].
  - rewrite firstn_app, (firstn_all2 got) by exact Hle.
    rewrite skipn_app, skipn_all, Nat.sub_diag. cbn [skipn app].
    apply firstn_repeat_le. lia.
  - replace (Z.to_nat l - List.length got)%nat with 0%nat by lia.
    apply skipn_all2. rewrite length_firstn. lia.
Qed.

Lemma fill_whole (l : Z) (got : bytes) : len got = l -> fill l got = got.
Proof.
  intros <-. unfold fill, len. rewrite Nat2Z.id, firstn_app, Nat.sub_diag, firstn_all.
  cbn [firstn]. apply app_nil_r.
Qed.

(** A run of [request] that gets as far as reading the body. *)
Lemma request_body_run (s : State W) (c : Conn) (req : bytes) (l : Z)
    (got : bytes) (err : option error) :
  conn (rc s) = Some c ->
  body_read c req s = Some (l, (got, err)) ->
  exists s',
    request req s = (Returns (Some (fill l got), err), s') /\
    added s s' =
      [EvLock; EvSetDeadline c (timeout (rc s));
       EvWrite c (PutUint32 (uint32 (len req))); EvWrite c req;
       EvReadFull c 4; EvReadFull c l; EvUnlock] /\
    rc s' = rc s /\ 0 <= l < 2 ^ 32.
Proof.
  intros Hc. unfold body_read, request. rewrite bind_get_rc, Hc, bind_ret.
  unfold with_lock, emit, exchange. step c Hc.
  destruct (conn_SetDeadline c (timeout (rc s)) (world s)) as [[e|] w1];
    cbn [fst snd]; [discriminate|].
  step c Hc.
  destruct (conn_Write c (PutUint32 (uint32 (len req))) w1) as [[e|] w2];
    cbn [fst snd]; [discriminate|].
  step c Hc.
  destruct (conn_Write c req w2) as [[e|] w3]; cbn [fst snd]; [discriminate|].
  step c Hc.
  destruct (io_ReadFull c 4 w3) as [[lb [e|]] w4]; cbn [fst snd]; [discriminate|].
  step c Hc.
  destruct (io_ReadFull c (Uint32 lb) w4) as [[b e] w5]; cbn [fst snd].
  intros [= <- <- <-]. unfold ret. eexists. split; [reflexivity|].
  cbn [rc log]. rewrite <- !app_assoc, added_app. cbn [app].
  split; [reflexivity|]. split; [reflexivity|apply Uint32_range].
Qed.

(** X7: The successful exchange: on a connection on which the deadline, both
    writes and both reads succeed and the body arrives whole, [request]
    returns the body of the response as it arrived; it has taken the
    mutex, set the deadline, written the four length bytes and then the
    request, read four bytes and then as many as they announce, and
    released the mutex, in that order and nothing else; the client is as
    before. *)
Theorem request_success (s : State W) (c : Conn) (req : bytes) (l : Z)
    (got : bytes) :
  conn (rc s) = Some c ->
  body_read c req s = Some (l, (got, None)) ->
  len got = l ->
  exists s',
    request req s = (Returns (Some got, None), s') /\
    added s s' =
      [EvLock; EvSetDeadline c (timeout (rc s));
       EvWrite c (PutUint32 (uint32 (len req))); EvWrite c req;
       EvReadFull c 4; EvReadFull c l; EvUnlock] /\
    rc s' = rc s.
Proof.
  intros Hc Hb Hl.
  destruct (request_body_run s c req l got None Hc Hb) as (s' & Hr & Ha & Hrc & _).
  rewrite (fill_whole l got Hl) in Hr. eauto.
Qed.

(** X8: The buffer [request] returns always has the length the header of
    the response announced, a length below 2^32: when the body arrives
    short, the bytes that did arrive are followed by zeros up to that
    length, and the error of the read comes with the buffer. *)
Theorem request_buffer_length (s : State W) (c : Conn) (req : bytes) (l : Z)
    (got : bytes) (err : option error) :
  conn (rc s) = Some c ->
  body_read c req s = Some (l, (got, err)) ->
  exists buf s',
    request req s = (Returns (Some buf, err), s') /\
    len buf = l /\ 0 <= l < 2 ^ 32 /\
    firstn (List.length got) buf = firstn (Z.to_nat l) got /\
    skipn (List.length got) buf = repeat x00 (Z.to_nat l - List.length got).
Proof.
  intros Hc Hb.
  destruct (request_body_run s c req l got err Hc Hb) as (s' & Hr & _ & _ & Hl).
  exists (fill l got), s'. split; [exact Hr|].
  split; [unfold len; rewrite fill_length; apply Z2Nat.id; lia|].
  split; [exact Hl|]. split; [apply fill_prefix|apply fill_padding].
Qed.

End ResponseFacts.

(** ** One call after another *)

Section SequenceFacts.

Context {W : Type} {Sys : System W}.

Ltac step c Hc :=
  repeat first
    [ rewrite bind_get_rc
    | rewrite (bind_the_conn _ _ c) by exact Hc
    | rewrite bind_call
    | rewrite bind_ret ];
  cbn [rc world log fst snd].

(** [request] on a client that holds [c] starts with the mutex and the
    deadline on [c], and stays on [c]. *)
Lemma request_goes_to (s : State W) (c : Conn) (req : bytes) :
  conn (rc s) = Some c ->
  exists out s' rest,
    request req s = (Returns out, s') /\
    added s s' = EvLock :: EvSetDeadline c (timeout (rc s)) :: rest /\
    only_on c (added s s') = true.
Proof.
  intros Hc.
  destruct (request_connected s c req Hc) as (out & s' & l & Hr & Hf).
  destruct Hf as [Hlog _ (rest & Hrest) Hon _ _ _ _].
  exists out, s', rest. rewrite (added_of_log s s' l Hlog).
  split; [exact Hr|]. split; [exact Hrest|exact Hon].
Qed.

(** The run of [request] whose write of the length breaks the pipe: the
    calls made, and what the reconnect leaves in the client. *)
Lemma request_broken_pipe_run (s : State W) (c : Conn) (req : bytes) :
  conn (rc s) = Some c ->
  length_write_broken_pipe c req s = true ->
  exists out s',
    request req s = (Returns out, s') /\
    fst out = None /\
    match redial c req s with
    | None => snd out = Some EndpointUnavailable /\ rc s' = rc s
    | Some c' =>
        (exists e, snd out = Some e /\ errors_Is e EPIPE = true) /\
        rc s' = set_conn (rc s) (Some c') /\
        added s s' =
          [EvLock; EvSetDeadline c (timeout (rc s));
           EvWrite c (PutUint32 (uint32 (len req)));
           EvStat (address (rc s)); EvDial (network (rc s)) (address (rc s));
           EvUnlock]
    end.
Proof.
  intros Hc. unfold length_write_broken_pipe, redial, request.
  rewrite bind_get_rc, Hc, bind_ret.
  unfold with_lock, emit, exchange. step c Hc.
  destruct (conn_SetDeadline c (timeout (rc s)) (world s)) as [[e|] w1];
    cbn [fst snd]; [discriminate|].
  step c Hc.
  destruct (conn_Write c (PutUint32 (uint32 (len req))) w1) as [[e|] w2];
    cbn [fst snd]; [|discriminate].
  intros He. rewrite He. unfold bind at 1.
  match goal with
  | |- context [reconnect ?st] => pose proof (reconnect_run st) as Hrun
  end.
  cbv zeta in Hrun. cbn [rc world log] in Hrun.
  destruct (os_Stat (address (rc s)) w2) as [err w3].
  destruct (os_IsNotExist err).
  - rewrite Hrun. unfold ret. do 2 eexists. split; [reflexivity|].
    cbn [fst snd rc]. auto.
  - destruct (net_Dial (network (rc s)) (address (rc s)) w3) as [[c'|e'] w4];
      rewrite Hrun; unfold ret; do 2 eexists; (split; [reflexivity|]);
      cbn [fst snd rc]; (split; [reflexivity|]).
    + split; [exists e; auto|]. split; [reflexivity|].
      apply added_of_log. cbn [log]. rewrite <- !app_assoc. reflexivity.
    + auto.
Qed.

(** X9: After a broken pipe on the write of the length the call returns
    no bytes and an error.  When the reconnect fails ([os.Stat] finds
    the path missing, or [net.Dial] fails) the error is
    EndpointUnavailable and the client keeps the connection it had.
    When [net.Dial] hands out a socket, the error is the broken pipe of
    the write, the client holds that very socket, the call has done
    nothing but lock, set the deadline, write the length, stat, dial and
    unlock, and the next call starts on the new socket, without another
    connect attempt first, and makes its calls on that socket only. *)
Theorem request_after_broken_pipe (s : State W) (c : Conn) (req req2 : bytes) :
  conn (rc s) = Some c ->
  length_write_broken_pipe c req s = true ->
  exists out s1,
    request req s = (Returns out, s1) /\
    fst out = None /\
    match redial c req s with
    | None => snd out = Some EndpointUnavailable /\ rc s1 = rc s
    | Some c' =>
        (exists e, snd out = Some e /\ errors_Is e EPIPE = true) /\
        rc s1 = set_conn (rc s) (Some c') /\
        added s s1 =
          [EvLock; EvSetDeadline c (timeout (rc s));
           EvWrite c (PutUint32 (uint32 (len req)));
           EvStat (address (rc s)); EvDial (network (rc s)) (address (rc s));
           EvUnlock] /\
        exists out2 s2 rest,
          request req2 s1 = (Returns out2, s2) /\
          added s1 s2 = EvLock :: EvSetDeadline c' (timeout (rc s)) :: rest /\
          only_on c' (added s1 s2) = true
    end.
Proof.
  intros Hc Hb.
  destruct (request_broken_pipe_run s c req Hc Hb) as (out & s1 & Hr & Ho & Hcase).
  exists out, s1. split; [exact Hr|]. split; [exact Ho|].
  destruct (redial c req s) as [c'|]; [|exact Hcase].
  destruct Hcase as (He & Hrc & Hlog).
  assert (Hc1 : conn (rc s1) = Some c') by (rewrite Hrc; reflexivity).
  destruct (request_goes_to s1 c' req2 Hc1) as (out2 & s2 & rest & Hr2 & Ha & Hon).
  rewrite Hrc in Ha. cbn [timeout set_conn] in Ha.
  split; [exact He|]. split; [exact Hrc|]. split; [exact Hlog|].
  exists out2, s2, rest. auto.
Qed.

(** X10: [Close] closes the socket and keeps it: a client without a
    connection is left alone and nil is returned; otherwise the one call
    made is [Close] on the socket, whose error is returned, and the
    client still holds that socket afterwards, so that the next
    [request] goes to the closed socket, without a connect attempt
    first. *)
Theorem Close_keeps_connection (s : State W) (req : bytes) :
  match conn (rc s) with
  | None => Close s = (Returns None, s)
  | Some c =>
      exists o s1 out s2 rest,
        Close s = (Returns o, s1) /\
        o = fst (conn_Close c (world s)) /\
        added s s1 = [EvClose c] /\
        rc s1 = rc s /\
        request req s1 = (Returns out, s2) /\
        added s1 s2 = EvLock :: EvSetDeadline c (timeout (rc s)) :: rest /\
        only_on c (added s1 s2) = true
  end.
Proof.
  destruct (conn (rc s)) as [c|] eqn:Hc.
  - assert (HC : Close s =
                 (Returns (fst (conn_Close c (world s))),
                  mkState (snd (conn_Close c (world s))) (rc s)
                    (log s ++ [EvClose c]))).
    { unfold Close. rewrite bind_get_rc, Hc. unfold call.
      destruct (conn_Close c (world s)); reflexivity. }
    set (s1 := mkState (snd (conn_Close c (world s))) (rc s) (log s ++ [EvClose c])) in *.
    destruct (request_goes_to s1 c req Hc) as (out & s2 & rest & Hr & Ha & Hon).
    exists (fst (conn_Close c (world s))), s1, out, s2, rest.
    split; [exact HC|]. split; [reflexivity|].
    split; [apply added_app|]. split; [reflexivity|].
    split; [exact Hr|]. split; [exact Ha|exact Hon].
  - unfold Close. rewrite bind_get_rc, Hc. reflexivity.
Qed.

End SequenceFacts.

(** ** A new client *)

Section NewClientFacts.

Context {W : Type} {Sys : System W}.

(** X11: A client as [newRPCClient] makes it holds no connection, so that
    [Close] on it does nothing, and the first [request] starts with the
    connect attempt: [os.Stat] on the address given at construction and,
    unless that says the path does not exist, [net.Dial] with the network
    and the address given at construction. *)
Theorem first_request_connects (w : W) (l : list Event) (net addr : string)
    (tmo : Z) (req : bytes) :
  let s := mkState w (newRPCClient net addr tmo) l in
  Close s = (Returns None, s) /\
  exists out s' rest,
    request req s = (Returns out, s') /\
    added s s' = EvStat addr :: rest /\
    (os_IsNotExist (fst (os_Stat addr w)) = false ->
     exists rest', rest = EvDial net addr :: rest').
Proof.
  intros s. split; [reflexivity|].
  destruct (request_unconnected s req eq_refl)
    as (o & s1 & pre & Hr & Hl & _ & _ & _ & Hcase).
  pose proof (reconnect_run s) as Hrun. cbv zeta in Hrun.
  cbn [rc world log s address network newRPCClient] in Hrun.
  destruct (os_Stat addr w) as [err w1]. cbn [fst].
  assert (Hpre : pre = if os_IsNotExist err then [EvStat addr]
                       else [EvStat addr; EvDial net addr]).
  { destruct (os_IsNotExist err).
    - rewrite Hrun in Hr. injection Hr as _ <-. cbn [log] in Hl.
      apply app_inv_head in Hl. congruence.
    - destruct (net_Dial net addr w1) as [[c|e] w2];
        rewrite Hrun in Hr; injection Hr as _ <-; cbn [log] in Hl;
        apply app_inv_head in Hl; congruence. }
  destruct Hcase as [(_ & _ & Hreq)|(c & out & s' & l' & _ & _ & _ & Hreq & Hf)].
  - exists (None, Some EndpointUnavailable), s1, (List.tl pre).
    split; [exact Hreq|]. rewrite (added_of_log s s1 pre Hl), Hpre.
    destruct (os_IsNotExist err); split; try reflexivity; try discriminate.
    intros _. eexists. reflexivity.
  - exists out, s', (List.tl pre ++ l')%list.
    split; [exact Hreq|].
    rewrite (added_trans s s1 s' pre l' Hl (xf_log _ _ _ _ Hf)), Hpre.
    destruct (os_IsNotExist err); split; try reflexivity; try discriminate.
    intros _. eexists. reflexivity.
Qed.

End NewClientFacts.

(** ** The gas estimate, away from the expected *)

(** The loop of [ParseUint] refuses a numeral of 2^64 or more. *)
Lemma ParseUint_loop_overflow (s : string) :
  forall a v,
    digits_value s a = Some v -> 0 <= a < 2 ^ 64 -> 2 ^ 64 <= v ->
    ParseUint_loop s a = inr ErrRange.
Proof.
  induction s as [|c r IH]; cbn [ParseUint_loop digits_value]; intros a v H Ha Hv.
  - injection H as <-. lia.
  - destruct (digit_of_ascii c) as [d|] eqn:D; [|discriminate].
    pose proof (digit_of_ascii_range _ _ D) as Hd.
    change (maxUint64 / 10 + 1) with 1844674407370955162.
    change maxUint64 with 18446744073709551615.
    change (2 ^ 64) with 18446744073709551616 in *.
    destruct (Z.geb_spec a 1844674407370955162); [reflexivity|].
    destruct (Z.lt_ge_cases (a * 10 + d) 18446744073709551616) as [Hfit|Hwrap].
    + rewrite Z.mod_small by lia.
      destruct (Z.ltb_spec (a * 10 + d) (a * 10)); [lia|].
      destruct (Z.gtb_spec (a * 10 + d) 18446744073709551615); [lia|].
      cbn [orb]. apply (IH _ v H); lia.
    + replace ((a * 10 + d) mod 18446744073709551616)
        with (a * 10 + d - 18446744073709551616).
      * destruct (Z.ltb_spec (a * 10 + d - 18446744073709551616) (a * 10));
          [reflexivity|lia].
      * apply Z.mod_unique with (q := 1); lia.
Qed.

(** [strconv.ParseInt] refuses every decimal numeral of 2^63 or more. *)
Lemma ParseInt_decimal_too_big (s : string) (v : Z) :
  decimal_value s = Some v -> 2 ^ 63 <= v ->
  ParseInt s = inr (NumError "ParseInt" s ErrRange).
Proof.
  intros H Hv.
  destruct (Z.lt_ge_cases v (2 ^ 64)) as [Hlt|Hge];
    [apply (ParseInt_decimal_range s v H); lia|].
  destruct s as [|c r]; [discriminate|]. unfold decimal_value in H.
  assert (Hd : exists d, digit_of_ascii c = Some d).
  { simpl in H. destruct (digit_of_ascii c); [eauto|discriminate]. }
  destruct Hd as [d Hd]. destruct (digit_is_no_sign _ _ Hd) as [Hm Hp].
  unfold ParseInt. rewrite Hm, Hp. cbn [orb negb andb].
  unfold ParseUint.
  rewrite (ParseUint_loop_overflow _ 0 v H) by first [exact Hge|split; [lia|reflexivity]].
  reflexivity.
Qed.

(** [strconv.ParseInt] on a minus sign and a decimal numeral of at most
    2^63. *)
Lemma ParseInt_negative (s : string) (v : Z) :
  negative_decimal s = Some v -> v <= 2 ^ 63 -> ParseInt s = inl (- v).
Proof.
  destruct s as [|c r]; [discriminate|]. unfold negative_decimal.
  destruct (Ascii.eqb_spec c "-") as [->|Hne].
  2:{ destruct c as [[] [] [] [] [] [] [] []]; try discriminate; congruence. }
  intros H Hv. unfold ParseInt. rewrite Ascii.eqb_refl. cbn [orb negb andb].
  replace (Ascii.eqb "-" "+") with false by reflexivity. cbn [orb].
  destruct r as [|c' r']; [discriminate|]. unfold decimal_value in H.
  unfold ParseUint.
  assert (H64 : v < 2 ^ 64) by (eapply Z.le_lt_trans; [exact Hv|reflexivity]).
  rewrite (ParseUint_loop_digits _ 0 v H ltac:(lia) H64).
  change (2 ^ 63) with 9223372036854775808 in *.
  destruct (Z.gtb_spec v 9223372036854775808); [lia|]. reflexivity.
Qed.

Section GasFacts.

Context {Lib : Library}.

(** X12: Every decimal result of 2^63 or more is refused: the error is the
    range error of [strconv.ParseInt] under the prefix of
    [parseEstimateGasResponse], whatever the result type could hold and
    whatever else the response carries. *)
Theorem parseEstimateGasResponse_too_big (res : bytes) (tok : string) (V : Z) :
  jsonparser_Get res ["result"] = (bytes_of_string tok, jsonparser.Number, None) ->
  decimal_value tok = Some V ->
  2 ^ 63 <= V ->
  parseEstimateGasResponse res =
    (None, Some (Wrapf "failed to parse result as integer"
                   (NumError "ParseInt" tok ErrRange))).
Proof.
  intros Hget Hdec HV. unfold parseEstimateGasResponse. rewrite Hget.
  unfold string_of_bytes, bytes_of_string.
  rewrite string_of_list_byte_of_string, (ParseInt_decimal_too_big _ _ Hdec HV).
  reflexivity.
Qed.

(** X13: A negative result, a minus sign and digits of value [V] with
    0 < V <= 2^63, is parsed, and what the result type is given to decode
    is the numeral with the sign after the prefix: 0x-<hex of V>. *)
Theorem parseEstimateGasResponse_negative (res : bytes) (tok : string) (V : Z) :
  jsonparser_Get res ["result"] = (bytes_of_string tok, jsonparser.Number, None) ->
  negative_decimal tok = Some V ->
  0 < V <= 2 ^ 63 ->
  parseEstimateGasResponse res =
    match Uint256_UnmarshalJSON
            (bytes_of_string ("0x-" ++ fmt_hex 15 V "")) new_Uint256 with
    | (_, Some e) => (None, Some (Wrapf "failed to unmarshal result" e))
    | (resp, None) => (Some resp, None)
    end.
Proof.
  intros Hget Hdec [H0 HV]. unfold parseEstimateGasResponse. rewrite Hget.
  unfold string_of_bytes, bytes_of_string at 1.
  rewrite string_of_list_byte_of_string, (ParseInt_negative _ _ Hdec HV).
  unfold Sprintf_0x_x.
  destruct (Z.ltb_spec (- V) 0); [|lia].
  rewrite Z.abs_opp, Z.abs_eq by lia. reflexivity.
Qed.

(** X14: A response whose result is absent, or is there but is not a number
    (a quoted hexadecimal quantity for one), is an engine error and never
    a result: the detail is [error.data] when that is there and not
    empty, else [error.message] when that is there and not empty, else
    the words for an unknown error. *)
Theorem parseEstimateGasResponse_engine_error (res : bytes) :
  (snd (jsonparser_Get res ["result"]) <> None \/
   snd (fst (jsonparser_Get res ["result"])) <> jsonparser.Number) ->
  let data := jsonparser_Get res ["error"; "data"] in
  let message := jsonparser_Get res ["error"; "message"] in
  let usable (r : bytes * jsonparser.ValueType * option error) :=
    match snd r, fst (fst r) with
    | None, _ :: _ => true
    | _, _ => false
    end in
  parseEstimateGasResponse res =
    (None,
     Some (EngineError
             (if usable data then string_of_bytes (fst (fst data))
              else if usable message then string_of_bytes (fst (fst message))
              else "unknown error occurred"))).
Proof.
  intros Hr. cbv zeta.
  assert (Hh : parseEstimateGasResponse res = handleEstimateGasError res).
  { unfold parseEstimateGasResponse.
    destruct (jsonparser_Get res ["result"]) as [[r ty] [e|]]; [reflexivity|].
    destruct ty; try reflexivity. destruct Hr as [Hr|Hr]; exfalso; apply Hr; reflexivity. }
  rewrite Hh. unfold handleEstimateGasError, EngineError.
  destruct (jsonparser_Get res ["error"; "data"]) as [[d dt] [de|]];
    destruct (jsonparser_Get res ["error"; "message"]) as [[m mt] [me|]];
    destruct d; destruct m; reflexivity.
Qed.

End GasFacts.

(** ** The request *)

Section BuildFacts.

Context {Lib : Library}.

Lemma buildRequest_loop_ok (params : list param) :
  forall (outs : list bytes) (first : bool) (b : bytes),
    map json_Marshal params = map inl outs ->
    buildRequest_loop params first b =
      inl (b ++ (if first then [] else
                   match outs with [] => [] | _ => bytes_of_string "," end)
             ++ joined (bytes_of_string ",") outs)%list.
Proof.
  induction params as [|p rest IH]; intros outs first b H.
  - destruct outs; [|discriminate]. destruct first; simpl; rewrite app_nil_r; reflexivity.
  - destruct outs as [|o outs']; [discriminate|].
    cbn [map] in H. injection H as Hp Hrest.
    cbn [buildRequest_loop]. rewrite Hp. rewrite (IH outs' false _ Hrest).
    f_equal. destruct first; destruct outs' as [|o' outs'']; cbn [joined];
      rewrite <- ?app_assoc; cbn [app]; rewrite ?app_nil_r; reflexivity.
Qed.

Lemma buildRequest_loop_error (before : list param) :
  forall (outs : list bytes) (p : param) (after : list param) (e : error)
         (first : bool) (b : bytes),
    map json_Marshal before = map inl outs ->
    json_Marshal p = inr e ->
    buildRequest_loop (before ++ p :: after) first b = inr e.
Proof.
  induction before as [|q rest IH]; intros outs p after e first b H Hp.
  - cbn [app buildRequest_loop]. rewrite Hp. reflexivity.
  - destruct outs as [|o outs']; [discriminate|].
    cbn [map] in H. injection H as Hq Hrest.
    cbn [app buildRequest_loop]. rewrite Hq. apply (IH outs' p after e); assumption.
Qed.

Lemma request_head_eq (method : string) :
  bytes_of_string
    ("{" ++ quoted "id" ++ ":1," ++ quoted "jsonrpc" ++ ":" ++ quoted "2.0"
         ++ "," ++ quoted "method" ++ ":" ++ dq ++ method ++ dq
         ++ "," ++ quoted "params" ++ ":[") = request_head method.
Proof.
  unfold request_head, quoted. rewrite !string_app_assoc. reflexivity.
Qed.

(** X15: The request [buildRequest] makes: the fixed head with the method
    name, the parameters as [json.Marshal] gives them, one comma between
    two of them and none before the first or after the last, and the
    closing bracket and brace.  A parameter that cannot be marshalled
    makes the whole call fail with the error of the first such
    parameter. *)
Theorem buildRequest_shape (method : string) (params : list param)
    (outs : list bytes) :
  (map json_Marshal params = map inl outs ->
   buildRequest method params =
     inl (request_head method ++ joined (bytes_of_string ",") outs
            ++ bytes_of_string "]}")%list) /\
  (forall p after e,
      map json_Marshal params = map inl outs -> json_Marshal p = inr e ->
      buildRequest method (params ++ p :: after) = inr e).
Proof.
  split.
  - intros H. unfold buildRequest. rewrite request_head_eq.
    rewrite (buildRequest_loop_ok params outs true _ H).
    cbn [app]. rewrite <- app_assoc. reflexivity.
  - intros p after e H Hp. unfold buildRequest.
    rewrite (buildRequest_loop_error params outs p after e true _ H Hp).
    reflexivity.
Qed.

End BuildFacts.

(** ** From the hook to the refiner and back *)

Section EndToEnd.

Context {W : Type} {Sys : System W} {Lib : Library}.

(** X16: The two shapes of a trace result: an object, and an array whose only
    element is that object.  When the object decodes, both give the
    decoded frame and no error.  When it does not, the object shape
    gives the frame as far as it was decoded together with the decoding
    error, and the array shape gives no frame and the
    UnexpectedResponseShape error. *)
Theorem interpretTrace_shapes (res1 res2 obj arr : bytes)
    (ty : jsonparser.ValueType) :
  jsonparser_Get res1 ["result"] = (obj, jsonparser.Object, None) ->
  jsonparser_Get res2 ["result"] = (arr, jsonparser.Array, None) ->
  jsonparser_ArrayEach arr = ([(obj, ty)], None) ->
  let (trace, err) := json_Unmarshal obj new_CallFrame in
  interpretTrace res1 = (Some trace, err) /\
  interpretTrace res2 =
    match err with
    | None => (Some trace, None)
    | Some _ => (None, Some UnexpectedResponseShape)
    end.
Proof.
  intros H1 H2 Ha. unfold interpretTrace. rewrite H1, H2, Ha.
  cbn [collect_traces].
  destruct (json_Unmarshal obj new_CallFrame) as [trace [e|]]; split; reflexivity.
Qed.

(** [Pre] on the trace method with one hash, once the request is built
    and the exchange has returned bytes. *)
Lemma Pre_trace_run (s s' : State W) (response : option Response) (hash : H256)
    (req : bytes) (res : option bytes) :
  buildRequest "debug_traceTransaction" [PH256 hash] = inl req ->
  request req s = (Returns (res, None), s') ->
  Pre "debug_traceTransaction" response [AnyH256 hash] s =
    (Returns
       match interpretTrace (match res with Some b => b | None => [] end) with
       | (_, Some e) => (true, Some e, response)
       | (r, None) => (true, None, Some (TraceResponse r))
       end, s').
Proof.
  intros Hb Hr. unfold Pre. cbn [String.eqb Ascii.eqb Bool.eqb List.length Nat.eqb negb].
  cbn [index nth_error]. rewrite bind_ret. unfold bind.
  rewrite (TraceTransaction_interprets s s' hash req res Hb Hr).
  destruct (interpretTrace _) as [r [e|]]; reflexivity.
Qed.

(** X17: A response to the trace method without a result: the caller of [Pre]
    gets the message of the refiner word for word when [error.message]
    is a string, and the words "internal rpc error" when it is not; the
    call counts as handled and the response slot is left as it was. *)
Theorem Pre_trace_rpc_error (s s' : State W) (response : option Response)
    (hash : H256) (req res r m : bytes) (e : error)
    (mt : jsonparser.ValueType) (me : option error) :
  buildRequest "debug_traceTransaction" [PH256 hash] = inl req ->
  request req s = (Returns (Some res, None), s') ->
  jsonparser_Get res ["result"] = (r, jsonparser.NotExist, Some e) ->
  jsonparser.is_KeyPathNotFound e = true ->
  jsonparser_Get res ["error"; "message"] = (m, mt, me) ->
  Pre "debug_traceTransaction" response [AnyH256 hash] s =
    (Returns (true,
              Some (match me, mt with
                    | None, jsonparser.String => New (string_of_bytes m)
                    | _, _ => New "internal rpc error"
                    end),
              response), s').
Proof.
  intros Hb Hr Hg He Hm.
  rewrite (Pre_trace_run s s' response hash req (Some res) Hb Hr).
  unfold interpretTrace. rewrite Hg, He, Hm.
  destruct me; [reflexivity|]. destruct mt; reflexivity.
Qed.

(** X18: What [Pre] reports, whatever the method and the arguments, when it
    returns: an error leaves the response slot as it was; a call that is
    not handled has sent nothing and changed nothing; a handled call
    without error has put a result that is not nil into the slot; and a
    method other than the two is not handled and has no error. *)
Theorem Pre_outcome (s s' : State W) (name : string) (response r : option Response)
    (args : list any) (handled : bool) (err : option error) :
  Pre name response args s = (Returns (handled, err, r), s') ->
  (err <> None -> r = response) /\
  (handled = false -> s' = s /\ r = response) /\
  (handled = true -> err = None ->
   (exists frame, r = Some (TraceResponse (Some frame))) \/
   (exists gas, r = Some (GasResponse (Some gas)))) /\
  ((name =? "debug_traceTransaction")%string = false ->
   (name =? "eth_estimateGas")%string = false ->
   handled = false /\ err = None).
Proof.
  unfold Pre.
  destruct (name =? "debug_traceTransaction")%string eqn:Ht.
  - destruct (negb (List.length args =? 1)%nat).
    + intros [= <- <- <- <-]. repeat split; try discriminate; congruence.
    + destruct args as [|a rest]; cbn [index nth_error].
      * unfold bind, panic. discriminate.
      * rewrite bind_ret.
        destruct a; try (intros [= <- <- <- <-]; repeat split; try discriminate; congruence).
        destruct (TraceTransaction_returns s h) as ([f e] & s1 & Hr & Hone).
        unfold bind. rewrite Hr.
        destruct e as [e|]; intros [= <- <- <- <-].
        -- repeat split; try discriminate; congruence.
        -- destruct f as [f|]; [|discriminate Hone].
           repeat split; try discriminate; try congruence. intros _ _. left. eauto.
  - destruct (name =? "eth_estimateGas")%string eqn:Hg.
    + destruct args as [|a rest]; cbn [index nth_error];
        [unfold bind, panic; discriminate|].
      rewrite bind_ret.
      destruct a; try (intros [= <- <- <- <-]; repeat split; try discriminate; congruence).
      destruct rest as [|b rest]; cbn [index nth_error];
        [unfold bind, panic; discriminate|].
      rewrite bind_ret.
      destruct b; try (intros [= <- <- <- <-]; repeat split; try discriminate; congruence).
      set (n := BlockNumber match p with
                            | Some b => b
                            | None => mkBlockNumberOrHash (Some LatestBlockNumber) None
                            end).
      destruct n as [n|]; [|unfold bind, EstimateGas, panic; discriminate].
      destruct (EstimateGas_returns s tx n) as ([u e] & s1 & Hr & Hone).
      unfold bind. rewrite Hr.
      destruct e as [e|]; intros [= <- <- <- <-].
      * repeat split; try discriminate; congruence.
      * destruct u as [u|]; [|discriminate Hone].
        repeat split; try discriminate; try congruence. intros _ _. right. eauto.
    + intros [= <- <- <- <-]. repeat split; try discriminate; congruence.
Qed.

End EndToEnd.

(** ** The bytes on the wire *)

Section WireFacts.

Context {W : Type} {Sys : System W} {Lib : Library}.

(** X19: The trace method from end to end, on a connection on which the
    exchange succeeds: what goes out is the length and then the request
    with the marshalled hash as its only parameter; what [Pre] reports
    is what [interpretTrace] makes of the body that came back, handled in
    every case, the frame in the slot when there is no error. *)
Theorem Pre_trace_end_to_end (s : State W) (response : option Response)
    (hash : H256) (hb res : bytes) (c : Conn) (l : Z) :
  let req := (request_head "debug_traceTransaction" ++ hb
                ++ bytes_of_string "]}")%list in
  json_Marshal_H256 hash = inl hb ->
  conn (rc s) = Some c ->
  body_read c req s = Some (l, (res, None)) ->
  len res = l ->
  exists s',
    Pre "debug_traceTransaction" response [AnyH256 hash] s =
      (Returns
         match interpretTrace res with
         | (_, Some e) => (true, Some e, response)
         | (r, None) => (true, None, Some (TraceResponse r))
         end, s') /\
    added s s' =
      [EvLock; EvSetDeadline c (timeout (rc s));
       EvWrite c (PutUint32 (uint32 (len req))); EvWrite c req;
       EvReadFull c 4; EvReadFull c l; EvUnlock] /\
    rc s' = rc s.
Proof.
  intros req Hm Hc Hb Hl.
  assert (Hreq : buildRequest "debug_traceTransaction" [PH256 hash] = inl req).
  { destruct (buildRequest_shape "debug_traceTransaction" [PH256 hash] [hb]) as [H _].
    rewrite H by (cbn [map json_Marshal]; rewrite Hm; reflexivity). reflexivity. }
  destruct (request_success s c req l res Hc Hb Hl) as (s' & Hr & Ha & Hrc).
  exists s'. split; [|split; assumption].
  exact (Pre_trace_run s s' response hash req (Some res) Hreq Hr).
Qed.

(** X20: Gas estimation from end to end with a nil block reference, on a
    connection on which the exchange succeeds: the block parameter that
    goes out is the tag "latest", after the marshalled call; what [Pre]
    reports is what [parseEstimateGasResponse] makes of the body that
    came back, handled in every case, the estimate in the slot when there
    is no error. *)
Theorem Pre_estimateGas_end_to_end (s : State W) (response : option Response)
    (tx : TransactionForCall) (txb res : bytes) (c : Conn) (l : Z) :
  let req := (request_head "eth_estimateGas" ++ txb ++ bytes_of_string ","
                ++ bytes_of_string (quoted "latest") ++ bytes_of_string "]}")%list in
  LatestBlockNumber <> EarliestBlockNumber ->
  json_Marshal_TransactionForCall tx = inl txb ->
  conn (rc s) = Some c ->
  body_read c req s = Some (l, (res, None)) ->
  len res = l ->
  exists s',
    Pre "eth_estimateGas" response [AnyTransactionForCall tx; AnyBlockRef None] s =
      (Returns
         match parseEstimateGasResponse res with
         | (_, Some e) => (true, Some e, response)
         | (r, None) => (true, None, Some (GasResponse r))
         end, s') /\
    added s s' =
      [EvLock; EvSetDeadline c (timeout (rc s));
       EvWrite c (PutUint32 (uint32 (len req))); EvWrite c req;
       EvReadFull c 4; EvReadFull c l; EvUnlock] /\
    rc s' = rc s.
Proof.
  intros req Hne Hm Hc Hb Hl.
  assert (Hreq : buildRequest "eth_estimateGas"
                   [PTransactionForCall tx; PString "latest"] = inl req).
  { destruct (buildRequest_shape "eth_estimateGas"
                [PTransactionForCall tx; PString "latest"]
                [txb; bytes_of_string (quoted "latest")]) as [H _].
    rewrite H by (cbn [map json_Marshal]; rewrite Hm; reflexivity).
    cbn [joined]. rewrite <- !app_assoc. reflexivity. }
  destruct (request_success s c req l res Hc Hb Hl) as (s' & Hr & Ha & Hrc).
  exists s'. split; [|split; assumption].
  unfold Pre. cbn [String.eqb Ascii.eqb Bool.eqb index nth_error].
  rewrite !bind_ret. cbn [BlockNumber]. unfold EstimateGas.
  apply Z.eqb_neq in Hne. rewrite Hne, Z.eqb_refl, Hreq.
  unfold bind. rewrite Hr. unfold ret.
  destruct (parseEstimateGasResponse res) as [r [e|]]; reflexivity.
Qed.

End WireFacts.

(** ** Concrete runs of the further properties *)

Lemma request_success_witness :
  let res := Sample.result_response "21000" in
  let s := Scripted.start (Some 3%nat) (Scripted.answering res) in
  let req := [x7b; x7d] in
  conn (rc s) = Some 3%nat /\
  body_read 3%nat req s = Some (len res, (res, None)) /\
  exists s',
    request req s = (Returns (Some res, None), s') /\
    added s s' =
      [EvLock; EvSetDeadline 3%nat (timeout (rc s));
       EvWrite 3%nat (PutUint32 (uint32 (len req))); EvWrite 3%nat req;
       EvReadFull 3%nat 4; EvReadFull 3%nat (len res); EvUnlock] /\
    rc s' = rc s.
Proof.
  intros res s req.
  assert (Hc : conn (rc s) = Some 3%nat) by reflexivity.
  assert (Hb : body_read 3%nat req s = Some (len res, (res, None)))
    by (vm_compute; reflexivity).
  split; [exact Hc|]. split; [exact Hb|].
  exact (request_success s 3%nat req (len res) res Hc Hb eq_refl).
Defined.

Lemma request_buffer_length_witness :
  let s := Scripted.start (Some 3%nat)
             (Scripted.mkWorld [] [] [] []
                [(PutUint32 5, None); ([x7b], Some ErrUnexpectedEOF)]) in
  let req := [x7b; x7d] in
  conn (rc s) = Some 3%nat /\
  body_read 3%nat req s = Some (5, ([x7b], Some ErrUnexpectedEOF)) /\
  exists buf s',
    request req s = (Returns (Some buf, Some ErrUnexpectedEOF), s') /\
    len buf = 5 /\ 0 <= 5 < 2 ^ 32 /\
    firstn 1 buf = firstn (Z.to_nat 5) [x7b] /\
    skipn 1 buf = repeat x00 (Z.to_nat 5 - 1).
Proof.
  intros s req.
  assert (Hc : conn (rc s) = Some 3%nat) by reflexivity.
  assert (Hb : body_read 3%nat req s = Some (5, ([x7b], Some ErrUnexpectedEOF)))
    by reflexivity.
  split; [exact Hc|]. split; [exact Hb|].
  exact (request_buffer_length s 3%nat req 5 [x7b] (Some ErrUnexpectedEOF) Hc Hb).
Defined.

Lemma request_connect_failure_witness :
  let s := Scripted.start None
             (Scripted.mkWorld [Some Scripted.no_such_file] [] [] [] []) in
  conn (rc s) = None /\
  fst (reconnect s) = Returns (Some EndpointUnavailable) /\
  exists s',
    request [x7b; x7d] s = (Returns (None, Some EndpointUnavailable), s') /\
    rc s' = rc s /\
    off_socket (added s s') = true /\
    reconnects (added s s') = 1%nat.
Proof.
  intros s.
  assert (Hc : conn (rc s) = None) by reflexivity.
  assert (He : fst (reconnect s) = Returns (Some EndpointUnavailable)) by reflexivity.
  split; [exact Hc|]. split; [exact He|].
  exact (request_connect_failure s [x7b; x7d] EndpointUnavailable Hc He).
Defined.

Lemma request_only_on_connection_witness :
  let s := Scripted.start (Some 3%nat) Scripted.calm in
  conn (rc s) = Some 3%nat /\
  exists out s',
    request [x7b; x7d] s = (Returns out, s') /\ only_on 3%nat (added s s') = true.
Proof.
  intros s. split; [reflexivity|].
  exact (request_only_on_connection s 3%nat [x7b; x7d] eq_refl).
Defined.

Lemma request_after_broken_pipe_witness :
  let s := Scripted.start (Some 3%nat)
             (Scripted.mkWorld [] [inl 4%nat] [] [Some Scripted.broken_pipe] []) in
  let req := [x7b; x7d] in
  conn (rc s) = Some 3%nat /\
  length_write_broken_pipe 3%nat req s = true /\
  redial 3%nat req s = Some 4%nat /\
  exists out s1,
    request req s = (Returns out, s1) /\
    fst out = None /\
    (exists e, snd out = Some e /\ errors_Is e EPIPE = true) /\
    rc s1 = set_conn (rc s) (Some 4%nat) /\
    added s s1 =
      [EvLock; EvSetDeadline 3%nat (timeout (rc s));
       EvWrite 3%nat (PutUint32 (uint32 (len req)));
       EvStat (address (rc s)); EvDial (network (rc s)) (address (rc s));
       EvUnlock] /\
    exists out2 s2 rest,
      request req s1 = (Returns out2, s2) /\
      added s1 s2 = EvLock :: EvSetDeadline 4%nat (timeout (rc s)) :: rest /\
      only_on 4%nat (added s1 s2) = true.
Proof.
  intros s req.
  assert (Hc : conn (rc s) = Some 3%nat) by reflexivity.
  assert (Hb : length_write_broken_pipe 3%nat req s = true) by reflexivity.
  assert (Hd : redial 3%nat req s = Some 4%nat) by reflexivity.
  split; [exact Hc|]. split; [exact Hb|]. split; [exact Hd|].
  pose proof (request_after_broken_pipe s 3%nat req req Hc Hb) as H.
  rewrite Hd in H. exact H.
Defined.

Lemma parseEstimateGasResponse_too_big_witness :
  let tok := "18446744073709551616" in
  let res := Sample.result_response tok in
  Sample.Get res ["result"] = (bytes_of_string tok, jsonparser.Number, None) /\
  decimal_value tok = Some (2 ^ 64) /\
  2 ^ 63 <= 2 ^ 64 /\
  parseEstimateGasResponse (Lib := Sample.library) res =
    (None, Some (Wrapf "failed to parse result as integer"
                   (NumError "ParseInt" tok ErrRange))).
Proof.
  intros tok res.
  assert (Hg : Sample.Get res ["result"] =
               (bytes_of_string tok, jsonparser.Number, None))
    by (vm_compute; reflexivity).
  assert (Hd : decimal_value tok = Some (2 ^ 64)) by (vm_compute; reflexivity).
  assert (Hv : 2 ^ 63 <= 2 ^ 64) by (vm_compute; discriminate).
  split; [exact Hg|]. split; [exact Hd|]. split; [exact Hv|].
  exact (parseEstimateGasResponse_too_big (Lib := Sample.library) res tok (2 ^ 64)
           Hg Hd Hv).
Defined.

Lemma parseEstimateGasResponse_negative_witness :
  let tok := "-255" in
  let res := Sample.result_response tok in
  Sample.Get res ["result"] = (bytes_of_string tok, jsonparser.Number, None) /\
  negative_decimal tok = Some 255 /\
  0 < 255 <= 2 ^ 63 /\
  "0x-" ++ fmt_hex 15 255 "" = "0x-ff" /\
  parseEstimateGasResponse (Lib := Sample.library) res =
    (None, Some (Wrapf "failed to unmarshal result" Sample.MalformedNumber)).
Proof.
  intros tok res.
  assert (Hg : Sample.Get res ["result"] =
               (bytes_of_string tok, jsonparser.Number, None))
    by (vm_compute; reflexivity).
  assert (Hd : negative_decimal tok = Some 255) by (vm_compute; reflexivity).
  assert (Hv : 0 < 255 <= 2 ^ 63) by (split; [reflexivity|vm_compute; discriminate]).
  split; [exact Hg|]. split; [exact Hd|]. split; [exact Hv|].
  split; [reflexivity|].
  rewrite (parseEstimateGasResponse_negative (Lib := Sample.library) res tok 255
             Hg Hd Hv).
  vm_compute. reflexivity.
Defined.

Lemma parseEstimateGasResponse_engine_error_witness :
  let res := Sample.error_response "execution reverted" "0x08c379a0" in
  (snd (Sample.Get res ["result"]) <> None \/
   snd (fst (Sample.Get res ["result"])) <> jsonparser.Number) /\
  parseEstimateGasResponse (Lib := Sample.library) res =
    (None, Some (EngineError "0x08c379a0")) /\
  parseEstimateGasResponse (Lib := Sample.library)
    (Sample.result_response (quoted "0x5208")) =
    (None, Some (EngineError "unknown error occurred")).
Proof.
  intros res.
  assert (H1 : snd (Sample.Get res ["result"]) <> None \/
               snd (fst (Sample.Get res ["result"])) <> jsonparser.Number)
    by (left; vm_compute; discriminate).
  assert (H2 : snd (Sample.Get (Sample.result_response (quoted "0x5208")) ["result"])
               <> None \/
               snd (fst (Sample.Get (Sample.result_response (quoted "0x5208"))
                           ["result"])) <> jsonparser.Number)
    by (right; vm_compute; discriminate).
  split; [exact H1|]. split.
  - rewrite (parseEstimateGasResponse_engine_error (Lib := Sample.library) res H1).
    vm_compute. reflexivity.
  - rewrite (parseEstimateGasResponse_engine_error (Lib := Sample.library) _ H2).
    vm_compute. reflexivity.
Defined.

Lemma interpretTrace_shapes_witness :
  let obj := bytes_of_string Sample.call_frame in
  let arr := bytes_of_string ("[" ++ Sample.call_frame ++ "]") in
  let res1 := Sample.result_response Sample.call_frame in
  let res2 := Sample.result_response ("[" ++ Sample.call_frame ++ "]") in
  Sample.Get res1 ["result"] = (obj, jsonparser.Object, None) /\
  Sample.Get res2 ["result"] = (arr, jsonparser.Array, None) /\
  Sample.ArrayEach arr = ([(obj, jsonparser.Object)], None) /\
  interpretTrace (Lib := Sample.library) res1 = (Some [("type", "CALL")], None) /\
  interpretTrace (Lib := Sample.library) res2 = (Some [("type", "CALL")], None).
Proof.
  intros obj arr res1 res2.
  assert (H1 : Sample.Get res1 ["result"] = (obj, jsonparser.Object, None))
    by (vm_compute; reflexivity).
  assert (H2 : Sample.Get res2 ["result"] = (arr, jsonparser.Array, None))
    by (vm_compute; reflexivity).
  assert (Ha : Sample.ArrayEach arr = ([(obj, jsonparser.Object)], None))
    by (vm_compute; reflexivity).
  split; [exact H1|]. split; [exact H2|]. split; [exact Ha|].
  pose proof (interpretTrace_shapes (Lib := Sample.library) res1 res2 obj arr
                jsonparser.Object H1 H2 Ha) as H.
  change (@json_Unmarshal Sample.library obj (@new_CallFrame Sample.library))
    with (Sample.Unmarshal obj []) in H.
  assert (Hu : Sample.Unmarshal obj [] = ([("type", "CALL")], None))
    by (vm_compute; reflexivity).
  rewrite Hu in H. exact H.
Defined.

Lemma Pre_trace_rpc_error_witness :
  let res := Sample.error_response "transaction not found" "" in
  let s := Scripted.start (Some 3%nat) (Scripted.answering res) in
  let req := match buildRequest (Lib := Sample.library) "debug_traceTransaction"
                     [PH256 "0xabc"] with
             | inl b => b
             | inr _ => []
             end in
  let s' := snd (request req s) in
  buildRequest (Lib := Sample.library) "debug_traceTransaction" [PH256 "0xabc"]
    = inl req /\
  request req s = (Returns (Some res, None), s') /\
  Sample.Get res ["result"] =
    ([], jsonparser.NotExist, Some jsonparser.KeyPathNotFoundError) /\
  jsonparser.is_KeyPathNotFound jsonparser.KeyPathNotFoundError = true /\
  Sample.Get res ["error"; "message"] =
    (bytes_of_string "transaction not found", jsonparser.String, None) /\
  Pre (Lib := Sample.library) "debug_traceTransaction" None [AnyH256 "0xabc"] s =
    (Returns (true, Some (New "transaction not found"), None), s').
Proof.
  intros res s req s'.
  assert (Hb : buildRequest (Lib := Sample.library) "debug_traceTransaction"
                 [PH256 "0xabc"] = inl req) by reflexivity.
  assert (Hr : request req s = (Returns (Some res, None), s'))
    by (vm_compute; reflexivity).
  assert (Hg : Sample.Get res ["result"] =
               ([], jsonparser.NotExist, Some jsonparser.KeyPathNotFoundError))
    by (vm_compute; reflexivity).
  assert (He : jsonparser.is_KeyPathNotFound jsonparser.KeyPathNotFoundError = true)
    by reflexivity.
  assert (Hm : Sample.Get res ["error"; "message"] =
               (bytes_of_string "transaction not found", jsonparser.String, None))
    by (vm_compute; reflexivity).
  split; [exact Hb|]. split; [exact Hr|]. split; [exact Hg|]. split; [exact He|].
  split; [exact Hm|].
  exact (Pre_trace_rpc_error (Lib := Sample.library) s s' None "0xabc" req res []
           (bytes_of_string "transaction not found")
           jsonparser.KeyPathNotFoundError jsonparser.String None
           Hb Hr Hg He Hm).
Defined.

Lemma Pre_outcome_witness :
  let s := Scripted.start (Some 3%nat)
             (Scripted.answering (Sample.result_response "21000")) in
  let args := [AnyTransactionForCall (Lib := Sample.library) "{}"; AnyBlockRef None] in
  let s' := snd (Pre (Lib := Sample.library) "eth_estimateGas" None args s) in
  Pre (Lib := Sample.library) "eth_estimateGas" None args s =
    (Returns (true, None, Some (GasResponse (Some 21000))), s') /\
  (exists gas : Z, Some (GasResponse (Lib := Sample.library) (Some 21000))
                   = Some (GasResponse (Some gas))).
Proof.
  intros s args s'.
  assert (Hrun : Pre (Lib := Sample.library) "eth_estimateGas" None args s =
    (Returns (true, None, Some (GasResponse (Some 21000))), s')).
  { reflexivity. }
  split; [exact Hrun|].
  pose proof (Pre_outcome (Lib := Sample.library) s s' "eth_estimateGas" None
              (Some (GasResponse (Some 21000))) args
              true None Hrun) as (_ & _ & H & _).
  destruct (H eq_refl eq_refl) as [[frame Hf]|[gas Hg]]; [discriminate Hf|].
  exists gas. exact Hg.
Defined.

Lemma Pre_trace_end_to_end_witness :
  let res := Sample.result_response Sample.call_frame in
  let s := Scripted.start (Some 3%nat) (Scripted.answering res) in
  let hb := bytes_of_string (quoted "0xabc") in
  let req := (request_head "debug_traceTransaction" ++ hb
                ++ bytes_of_string "]}")%list in
  json_Marshal_H256 (Library := Sample.library) "0xabc" = inl hb /\
  conn (rc s) = Some 3%nat /\
  body_read 3%nat req s = Some (len res, (res, None)) /\
  exists s',
    Pre (Lib := Sample.library) "debug_traceTransaction" None [AnyH256 "0xabc"] s =
      (Returns (true, None, Some (TraceResponse (Some [("type", "CALL")]))), s') /\
    rc s' = rc s.
Proof.
  intros res s hb req.
  assert (Hm : json_Marshal_H256 (Library := Sample.library) "0xabc" = inl hb)
    by reflexivity.
  assert (Hc : conn (rc s) = Some 3%nat) by reflexivity.
  assert (Hb : body_read 3%nat req s = Some (len res, (res, None)))
    by (vm_compute; reflexivity).
  split; [exact Hm|]. split; [exact Hc|]. split; [exact Hb|].
  destruct (Pre_trace_end_to_end (Lib := Sample.library) s None "0xabc" hb res
              3%nat (len res) Hm Hc Hb eq_refl) as (s' & Hp & _ & Hrc).
  exists s'. split; [|exact Hrc]. rewrite Hp.
  assert (Hi : interpretTrace (Lib := Sample.library) res =
               (Some [("type", "CALL")], None)) by (vm_compute; reflexivity).
  rewrite Hi. reflexivity.
Defined.

Lemma Pre_estimateGas_end_to_end_witness :
  let res := Sample.result_response "21000" in
  let s := Scripted.start (Some 3%nat) (Scripted.answering res) in
  let txb := bytes_of_string "{}" in
  let req := (request_head "eth_estimateGas" ++ txb ++ bytes_of_string ","
                ++ bytes_of_string (quoted "latest") ++ bytes_of_string "]}")%list in
  LatestBlockNumber (Library := Sample.library) <> EarliestBlockNumber /\
  json_Marshal_TransactionForCall (Library := Sample.library) "{}" = inl txb /\
  conn (rc s) = Some 3%nat /\
  body_read 3%nat req s = Some (len res, (res, None)) /\
  exists s',
    Pre (Lib := Sample.library) "eth_estimateGas" None
      [AnyTransactionForCall (Lib := Sample.library) "{}"; AnyBlockRef None] s =
      (Returns (true, None, Some (GasResponse (Some 21000))), s') /\
    rc s' = rc s.
Proof.
  intros res s txb req.
  assert (Hn : LatestBlockNumber (Library := Sample.library) <> EarliestBlockNumber)
    by discriminate.
  assert (Hm : json_Marshal_TransactionForCall (Library := Sample.library) "{}"
               = inl txb) by reflexivity.
  assert (Hc : conn (rc s) = Some 3%nat) by reflexivity.
  assert (Hb : body_read 3%nat req s = Some (len res, (res, None)))
    by (vm_compute; reflexivity).
  split; [exact Hn|]. split; [exact Hm|]. split; [exact Hc|]. split; [exact Hb|].
  destruct (Pre_estimateGas_end_to_end (Lib := Sample.library) s None "{}" txb res
              3%nat (len res) Hn Hm Hc Hb eq_refl) as (s' & Hp & _ & Hrc).
  exists s'. split; [|exact Hrc]. rewrite Hp.
  assert (Hi : parseEstimateGasResponse (Lib := Sample.library) res =
               (Some 21000, None)) by (vm_compute; reflexivity).
  rewrite Hi. reflexivity.
Defined.

Module RaceFacts.
Import Concurrent.

Lemma set_pc_length (l : list pc) (t : nat) (p : pc) :
  (t < List.length l)%nat -> List.length (set_pc t p l) = List.length l.
Proof.
  intros Ht. unfold set_pc.
  rewrite length_app, length_firstn. cbn [List.length]. rewrite length_skipn. lia.
Qed.

Lemma not_dialled_set_pc (l : list pc) :
  forall (t : nat) (p q : pc),
    nth_error l t = Some p ->
    (not_dialled (set_pc t q l) + (if before_dial p then 1 else 0) =
     not_dialled l + (if before_dial q then 1 else 0))%nat.
Proof.
  unfold not_dialled, set_pc.
  induction l as [|x l IH]; intros t p q H; [destruct t; discriminate|].
  destruct t as [|t]; cbn [nth_error] in H.
  - injection H as ->. cbn [firstn skipn app filter].
    destruct (before_dial p), (before_dial q); cbn [List.length]; lia.
  - cbn [firstn skipn app filter]. specialize (IH t p q H). cbn [skipn] in IH.
    destruct (before_dial x); cbn [List.length]; lia.
Qed.

(** The invariant is kept by every statement of every caller. *)
Lemma step_keeps_Race (t : nat) (s s' : Shared) :
  Race s -> step t s = Some s' -> Race s'.
Proof.
  intros [Hl Ho]. unfold step.
  destruct (nth_error (callers s) t) as [p|] eqn:Hp; [|discriminate].
  assert (Ht : (t < List.length (callers s))%nat)
    by (apply nth_error_Some; congruence).
  assert (Hothers : forall q t' p',
             (in_exchange q = true -> lock s = Some t) ->
             nth_error (set_pc t q (callers s)) t' = Some p' ->
             in_exchange p' = true -> lock s = Some t').
  { intros q t' p' Hq. rewrite ConcurrentFacts.nth_error_set_pc by exact Ht.
    destruct (Nat.eqb_spec t' t) as [->|_].
    - intros [= <-]. exact Hq.
    - apply Hl. }
  assert (Hcount : forall q,
             before_dial q = before_dial p ->
             (opened s + not_dialled (set_pc t q (callers s))
              <= List.length (set_pc t q (callers s)))%nat).
  { intros q Hq. rewrite set_pc_length by exact Ht.
    pose proof (not_dialled_set_pc (callers s) t p q Hp) as H. rewrite Hq in H.
    destruct (before_dial p); lia. }
  assert (Hleave : forall q,
             before_dial p = true -> before_dial q = false ->
             (S (opened s) + not_dialled (set_pc t q (callers s))
              <= List.length (set_pc t q (callers s)))%nat).
  { intros q Hbp Hbq. rewrite set_pc_length by exact Ht.
    pose proof (not_dialled_set_pc (callers s) t p q Hp) as H.
    rewrite Hbp, Hbq in H. lia. }
  assert (Hdrop : forall q,
             before_dial p = true -> before_dial q = false ->
             (opened s + not_dialled (set_pc t q (callers s))
              <= List.length (set_pc t q (callers s)))%nat).
  { intros q Hbp Hbq. pose proof (Hleave q Hbp Hbq). lia. }
  destruct p; unfold on_conn, move.
  - (* AtNilTest *)
    intros [= <-]. split; simpl.
    + intros t' p'. apply Hothers. destruct (conn s); discriminate.
    + destruct (conn s); [apply Hdrop|apply Hcount]; reflexivity.
  - (* AtStat *)
    intros [= <-]. split; simpl.
    + intros t' p'. apply Hothers. discriminate.
    + apply Hcount. reflexivity.
  - (* AtDial *)
    intros [= <-]. split; simpl.
    + intros t' p'. apply Hothers. discriminate.
    + apply Hleave; reflexivity.
  - (* AtAssign *)
    intros [= <-]. split; simpl.
    + intros t' p'. apply Hothers. discriminate.
    + apply Hcount. reflexivity.
  - (* AtLock *)
    destruct (lock s) as [h|] eqn:Hlock; [discriminate|]. intros [= <-].
    split; simpl.
    + intros t' p'. rewrite ConcurrentFacts.nth_error_set_pc by exact Ht.
      destruct (Nat.eqb_spec t' t) as [->|_]; [reflexivity|].
      intros Hp' He. specialize (Hl t' p' Hp' He). congruence.
    + apply Hcount. reflexivity.
  - (* AtSetDeadline *)
    pose proof (Hl t _ Hp eq_refl) as Hlock.
    intros [= <-]. destruct (conn s); split; simpl;
      try (intros t' p'; apply Hothers; intros _; exact Hlock);
      apply Hcount; reflexivity.
  - (* AtWriteLength *)
    pose proof (Hl t _ Hp eq_refl) as Hlock.
    intros [= <-]. destruct (conn s); split; simpl;
      try (intros t' p'; apply Hothers; intros _; exact Hlock);
      apply Hcount; reflexivity.
  - (* AtWriteBody *)
    pose proof (Hl t _ Hp eq_refl) as Hlock.
    intros [= <-]. destruct (conn s); split; simpl;
      try (intros t' p'; apply Hothers; intros _; exact Hlock);
      apply Hcount; reflexivity.
  - (* AtReadLength *)
    pose proof (Hl t _ Hp eq_refl) as Hlock.
    intros [= <-]. destruct (conn s); split; simpl;
      try (intros t' p'; apply Hothers; intros _; exact Hlock);
      apply Hcount; reflexivity.
  - (* AtReadBody *)
    pose proof (Hl t _ Hp eq_refl) as Hlock.
    intros [= <-]. destruct (conn s); split; simpl;
      try (intros t' p'; apply Hothers; intros _; exact Hlock);
      apply Hcount; reflexivity.
  - (* AtUnlock *)
    pose proof (Hl t _ Hp eq_refl) as Hlock.
    intros [= <-]. split; simpl.
    + intros t' p'. rewrite ConcurrentFacts.nth_error_set_pc by exact Ht.
      destruct (Nat.eqb_spec t' t) as [->|Hne]; [intros [= <-]; discriminate|].
      intros Hp' He. specialize (Hl t' p' Hp' He). congruence.
    + apply Hcount. reflexivity.
  - (* Returned *) discriminate.
  - (* Panicked *)
    destruct (lock s) as [h|] eqn:Hlock; [|discriminate].
    destruct (Nat.eqb_spec h t) as [->|_]; [|discriminate].
    intros [= <-]. split; simpl.
    + intros t' p' Hp' He. specialize (Hl t' p' Hp' He).
      assert (t' = t) by congruence. subst t'. rewrite Hp in Hp'.
      injection Hp' as <-. discriminate.
    + exact Ho.
Qed.

Lemma run_keeps_Race (schedule : list nat) :
  forall s, Race s -> Race (run schedule s).
Proof.
  induction schedule as [|t rest IH]; simpl; intros s H; [exact H|].
  apply IH. destruct (step t s) as [s'|] eqn:E; [|exact H].
  exact (step_keeps_Race t s s' H E).
Qed.

Lemma fresh_Race (n : nat) : Race (fresh n).
Proof.
  split; simpl.
  - intros t p H. apply nth_error_In, repeat_spec in H. subst p. discriminate.
  - rewrite repeat_length. unfold not_dialled.
    induction n as [|n IH]; simpl; lia.
Qed.

(** X22: Callers that race on a client without a connection: whatever the
    order of their statements, at most one of them is between [Lock] and
    [Unlock], and no caller dials twice, so that [n] callers open at
    most [n] sockets. *)
Theorem racing_callers_are_bounded (n : nat) (schedule : list nat) :
  let s := run schedule (fresh n) in
  (forall t t' p p',
      nth_error (callers s) t = Some p -> in_exchange p = true ->
      nth_error (callers s) t' = Some p' -> in_exchange p' = true -> t = t') /\
  (opened s <= n)%nat.
Proof.
  destruct (run_keeps_Race schedule _ (fresh_Race n)) as [Hl Ho].
  split.
  - intros t t' p p' Hp He Hp' He'.
    pose proof (Hl t p Hp He) as H1. pose proof (Hl t' p' Hp' He') as H2.
    congruence.
  - assert (Hlen : forall sch s, List.length (callers (run sch s)) = List.length (callers s)).
    { induction sch as [|t rest IH]; simpl; intros s; [reflexivity|].
      rewrite IH. destruct (step t s) as [s'|] eqn:E; [|reflexivity].
      unfold step in E.
      destruct (nth_error (callers s) t) as [p|] eqn:Hp; [|discriminate].
      assert (Ht : (t < List.length (callers s))%nat)
        by (apply nth_error_Some; congruence).
      destruct p; unfold on_conn, move in E;
        repeat match type of E with
               | context [match ?x with _ => _ end] => destruct x
               end;
        try discriminate; injection E as <-; simpl;
        try apply set_pc_length; try exact Ht; reflexivity. }
    rewrite Hlen in Ho. simpl in Ho. rewrite repeat_length in Ho. lia.
Qed.

End RaceFacts.
